(** * Two-marker window measurement: a shallow embedding of
      [back_end/two_marker_detect.py] and the properties of its
      specification.

    Pixel coordinates delivered by the marker detector and every
    floating-point quantity derived from them are modelled as exact
    real numbers ([R]); integer pixel coordinates (after [round]) and
    the marker size are modelled as [Z].  Python exceptions are the
    [Err] results of a small error monad. *)

From Stdlib Require Import String ZArith List Bool Lia Reals Lra Permutation.
Import ListNotations.

Local Open Scope Z_scope.

(** ** Exceptions and the error monad *)

Inductive error : Type :=
| WrongMarkerCount  (* ValueError("Unable to detect two markers, ...") *)
| InvalidDiagonal   (* ValueError("Unable to find diagonal for calculation, ...") *)
| EmptySequence     (* ValueError raised by min()/max() of an empty list *)
| NotInList         (* ValueError raised by list.index / list.remove *)
| IndexError        (* subscript out of range *)
| NonFinite.        (* OverflowError / ValueError raised by math.ceil on inf / nan *)

Inductive result (A : Type) : Type :=
| Ok (a : A)
| Err (e : error).

Arguments Ok {A} a.
Arguments Err {A} e.

Definition bind {A B : Type} (m : result A) (k : A -> result B) : result B :=
  match m with
  | Ok a => k a
  | Err e => Err e
  end.

Notation "x <- m ;; k" := (bind m (fun x => k))
  (at level 61, m at next level, right associativity).
Notation "' p <- m ;; k" := (bind m (fun x => let p := x in k))
  (at level 61, p pattern, m at next level, right associativity).

(** ** Python list primitives used by the source *)

(** [min(l)] and [max(l)] on a list of integers. *)
Definition py_min (l : list Z) : result Z :=
  match l with
  | [] => Err EmptySequence
  | x :: t => Ok (fold_left Z.min t x)
  end.

Definition py_max (l : list Z) : result Z :=
  match l with
  | [] => Err EmptySequence
  | x :: t => Ok (fold_left Z.max t x)
  end.

(** [l.index(v)]: position of the first occurrence of [v]. *)
Fixpoint py_index (v : Z) (l : list Z) : result nat :=
  match l with
  | [] => Err NotInList
  | x :: t => if x =? v then Ok O else i <- py_index v t ;; Ok (S i)
  end.

(** [l.remove(v)]: the list without the first occurrence of [v]. *)
Fixpoint py_remove (v : Z) (l : list Z) : result (list Z) :=
  match l with
  | [] => Err NotInList
  | x :: t => if x =? v then Ok t else t' <- py_remove v t ;; Ok (x :: t')
  end.

(** [l[i]]. *)
Definition py_get {A : Type} (l : list A) (i : nat) : result A :=
  match nth_error l i with
  | Some a => Ok a
  | None => Err IndexError
  end.

(** ** ExtremeCornerSelector: [get_diff_two_markers_px] *)

Definition coord : Type := (Z * Z)%type.

(** Lines 165-183: the indices [y_1_idx], [y_2_idx], [y_3_idx],
    [y_4_idx] into the list of points. *)
Definition extreme_indices (coords : list coord) : result (nat * nat * nat * nat) :=
  let y_coords := map snd coords in
  let y_coords_tmp := y_coords in
  y_1 <- py_min y_coords_tmp ;;
  y_1_idx <- py_index y_1 y_coords ;;
  y_coords_tmp <- py_remove y_1 y_coords_tmp ;;
  y_2 <- py_min y_coords_tmp ;;
  y_2_idx <- py_index y_2 y_coords ;;
  y_3 <- py_max y_coords_tmp ;;
  y_3_idx <- py_index y_3 y_coords ;;
  y_coords_tmp <- py_remove y_3 y_coords_tmp ;;
  y_4 <- py_max y_coords_tmp ;;
  y_4_idx <- py_index y_4 y_coords ;;
  Ok (y_1_idx, y_2_idx, y_3_idx, y_4_idx).

(** Lines 185-225.  The result is
    (top x, top y, bottom x, bottom y); [int()] is the identity on the
    integer coordinates. *)
Definition get_diff_two_markers_px (coords : list coord) (diagonal : string)
  : result (Z * Z * Z * Z) :=
  '(y_1_idx, y_2_idx, y_3_idx, y_4_idx) <- extreme_indices coords ;;
  if String.eqb diagonal "TLBR" then
    p1 <- py_get coords y_1_idx ;;
    p2 <- py_get coords y_2_idx ;;
    let tl := if fst p1 <? fst p2 then p1 else p2 in
    p3 <- py_get coords y_3_idx ;;
    p4 <- py_get coords y_4_idx ;;
    let br := if fst p3 >? fst p4 then p3 else p4 in
    Ok (fst tl, snd tl, fst br, snd br)
  else if String.eqb diagonal "TRBL" then
    p1 <- py_get coords y_1_idx ;;
    p2 <- py_get coords y_2_idx ;;
    let tr := if fst p1 >? fst p2 then p1 else p2 in
    p3 <- py_get coords y_3_idx ;;
    p4 <- py_get coords y_4_idx ;;
    let bl := if fst p3 <? fst p4 then p3 else p4 in
    Ok (fst tr, snd tr, fst bl, snd bl)
  else Err InvalidDiagonal.

(** ** Real-valued helpers *)

Local Open Scope R_scope.

(** Largest integer not above [x]. *)
Definition floorR (x : R) : Z := (up x - 1)%Z.

(** [math.ceil]. *)
Definition py_ceil (x : R) : Z := (- floorR (- x))%Z.

(** Python's [round(x)] with one argument: nearest integer, ties to
    the even neighbour. *)
Definition py_round (x : R) : Z :=
  let f := floorR x in
  let d := x - IZR f in
  if Rlt_dec d (1 / 2) then f
  else if Rlt_dec (1 / 2) d then (f + 1)%Z
  else if Z.even f then f else (f + 1)%Z.

(** ** ScaleEstimator: [get_scale] *)

Definition point : Type := (R * R)%type.

(** One detected marker: the 4x2 array of its corners. *)
Record marker : Type := Marker {
  corner0 : point;
  corner1 : point;
  corner2 : point;
  corner3 : point
}.

Definition rows (m : marker) : list point :=
  [corner0 m; corner1 m; corner2 m; corner3 m].

(** Difference of two rows of the array. *)
Definition vsub (p q : point) : point := (fst p - fst q, snd p - snd q).

(** [np.linalg.norm] of a 2-vector. *)
Definition norm (d : point) : R := sqrt (fst d * fst d + snd d * snd d).

(** [np.average] of a non-empty list. *)
Definition average (l : list R) : R :=
  fold_right Rplus 0 l / INR (List.length l).

(** Lines 130-144. *)
Definition get_scale (corners : marker) : R :=
  let displ_0 := vsub (corner0 corners) (corner1 corners) in
  let displ_1 := vsub (corner1 corners) (corner2 corners) in
  let displ_2 := vsub (corner2 corners) (corner3 corners) in
  let displ_3 := vsub (corner3 corners) (corner0 corners) in
  let norms := [norm displ_0; norm displ_1; norm displ_2; norm displ_3] in
  average norms.

(** ** DiagonalClassifier and DimensionCalculator: [calculate_two_markers] *)

(** Modelled from the spec: the constant [MM_IN_RATIO] is imported from
    [one_marker_detect], which is not part of the sources at hand; the
    specification gives the conversion ratio as 25.4 millimetres per
    inch. *)
Definition MM_IN_RATIO : R := 254 / 10.

(** Lines 81-82: squeeze a marker to its four rows and round every
    coordinate. *)
Definition clean (m : marker) : list coord :=
  map (fun row => (py_round (fst row), py_round (snd row))) (rows m).

(** Lines 87-101: the layout literal handed to
    [get_diff_two_markers_px], from the two cleaned markers. *)
Definition diagonal_of (c0 c1 : list coord) : result string :=
  a0 <- py_get c0 0 ;;
  a1 <- py_get c1 0 ;;
  let '(top_marker_coords, bottom_marker_coords) :=
    if (fst a0 <? fst a1)%Z then (c0, c1) else (c1, c0) in
  t <- py_get top_marker_coords 0 ;;
  b <- py_get bottom_marker_coords 0 ;;
  let is_top_marker_left := (snd t <? snd b)%Z in
  Ok (if is_top_marker_left then "TLBR"%string else "TRBL"%string).

(** Line 74: the guard on the detector's [ids]. *)
Definition check_ids (ids : option (list Z)) : result unit :=
  match ids with
  | None => Err WrongMarkerCount
  | Some l => if Nat.eqb (List.length l) 2 then Ok tt else Err WrongMarkerCount
  end.

(** Line 78. *)
Definition scale_of (corners : list marker) : result R :=
  m0 <- py_get corners 0 ;;
  m1 <- py_get corners 1 ;;
  Ok ((get_scale m0 + get_scale m1) / 2).

(** Lines 81-105: the pixel height and width of the window. *)
Definition pixel_extents (corners : list marker) : result (Z * Z) :=
  let corners := map clean corners in
  let corner_coords := List.concat corners in
  c0 <- py_get corners 0 ;;
  c1 <- py_get corners 1 ;;
  diagonal <- diagonal_of c0 c1 ;;
  '(t_coord_x, t_coord_y, b_coord_x, b_coord_y) <-
     get_diff_two_markers_px corner_coords diagonal ;;
  let h_px := Z.abs (t_coord_x - b_coord_x) in
  let w_px := Z.abs (t_coord_y - b_coord_y) in
  Ok (h_px, w_px).

(** Lines 108-111: a pixel length in inches, before rounding. *)
Definition to_inches (px : Z) (marker_size_mm : Z) (scale_px border_offset_in : R) : R :=
  let scale_mm := IZR marker_size_mm / scale_px in
  (IZR px * scale_mm) / MM_IN_RATIO + border_offset_in * 2.

(** Lines 114-115: [math.ceil(v * 2) / 2]. *)
Definition round_up_half (v : R) : R := IZR (py_ceil (v * 2)) / 2.

(** Lines 73-117.  The arguments [corners] and [ids] are what
    [cv.aruco.detectMarkers] returned for the image (lines 53-71 call
    the external detector).  A zero [scale_px] makes [scale_mm] and the
    lengths derived from it infinite or NaN, on which [math.ceil]
    raises. *)
Definition calculate_two_markers (corners : list marker) (ids : option (list Z))
    (marker_size_mm : Z) (border_offset_in : R) : result (R * R) :=
  _ <- check_ids ids ;;
  scale_px <- scale_of corners ;;
  '(h_px, w_px) <- pixel_extents corners ;;
  if Req_dec_T scale_px 0 then Err NonFinite
  else
    let h_in := to_inches h_px marker_size_mm scale_px border_offset_in in
    let w_in := to_inches w_px marker_size_mm scale_px border_offset_in in
    Ok (round_up_half h_in, round_up_half w_in).

(** ** Notions used in the statements *)

(** [m] is the least element of [l]. *)
Definition is_min (m : Z) (l : list Z) : Prop :=
  In m l /\ forall y, In y l -> (m <= y)%Z.

(** [m] is the greatest element of [l]. *)
Definition is_max (m : Z) (l : list Z) : Prop :=
  In m l /\ forall y, In y l -> (y <= m)%Z.

(** [i] is the first position of [l] that holds [v]. *)
Definition first_at (v : Z) (l : list Z) (i : nat) : Prop :=
  nth_error l i = Some v /\ forall j, (j < i)%nat -> nth_error l j <> Some v.

(** The first point, in list order, whose y-coordinate is [v]. *)
Definition point_at (v : Z) (coords : list coord) : option coord :=
  find (fun p => (snd p =? v)%Z) coords.

(** The values [y_1], [y_2], [y_3], [y_4] of lines 170-182. *)
Definition extreme_ys (ys : list Z) : result (Z * Z * Z * Z) :=
  y_1 <- py_min ys ;;
  tmp <- py_remove y_1 ys ;;
  y_2 <- py_min tmp ;;
  y_3 <- py_max tmp ;;
  tmp' <- py_remove y_3 tmp ;;
  y_4 <- py_max tmp' ;;
  Ok (y_1, y_2, y_3, y_4).

(** What the run of lines 170-182 establishes about the four values. *)
Record extremes (ys : list Z) (y1 y2 y3 y4 : Z) (tmp tmp' : list Z) : Prop := {
  ex_min1 : is_min y1 ys;
  ex_rem1 : Permutation ys (y1 :: tmp);
  ex_min2 : is_min y2 tmp;
  ex_max3 : is_max y3 tmp;
  ex_rem3 : Permutation tmp (y3 :: tmp');
  ex_max4 : is_max y4 tmp'
}.

(** Lines 187-225 on the four points found at the indices. *)
Definition select (diagonal : string) (p1 p2 p3 p4 : coord) : result (Z * Z * Z * Z) :=
  if String.eqb diagonal "TLBR" then
    let tl := if (fst p1 <? fst p2)%Z then p1 else p2 in
    let br := if (fst p3 >? fst p4)%Z then p3 else p4 in
    Ok (fst tl, snd tl, fst br, snd br)
  else if String.eqb diagonal "TRBL" then
    let tr := if (fst p1 >? fst p2)%Z then p1 else p2 in
    let bl := if (fst p3 <? fst p4)%Z then p3 else p4 in
    Ok (fst tr, snd tr, fst bl, snd bl)
  else Err InvalidDiagonal.

(** The four corners of a marker coincide. *)
Definition all_identical (m : marker) : Prop :=
  corner0 m = corner1 m /\ corner1 m = corner2 m /\ corner2 m = corner3 m.

Definition non_degenerate (m : marker) : Prop := ~ all_identical m.

(** A marker whose corners lie on integer pixel positions. *)
Definition ipoint (c : coord) : point := (IZR (fst c), IZR (snd c)).

Definition imarker (a b c d : coord) : marker :=
  Marker (ipoint a) (ipoint b) (ipoint c) (ipoint d).

(** The anchor (first corner) of a marker after rounding. *)
Definition anchor (m : marker) : coord :=
  (py_round (fst (corner0 m)), py_round (snd (corner0 m))).

(** The classification in the specification's words, on the anchors
    [a] of the first and [b] of the second marker: the first marker is
    labelled top when its anchor has the smaller x, the second
    otherwise; the layout is TopLeft-BottomRight when the top marker's
    anchor has the smaller y, TopRight-BottomLeft otherwise. *)
Definition layout (a b : coord) : string :=
  let top := if (fst a <? fst b)%Z then a else b in
  let bottom := if (fst a <? fst b)%Z then b else a in
  if (snd top <? snd bottom)%Z then "TLBR"%string else "TRBL"%string.

(** ** The specification's wording of the scale *)

(** Corner [i] of a marker, in its cyclic order. *)
Definition corner (m : marker) (i : nat) : point := nth i (rows m) (0, 0).

(** Side vector [corner[i] - corner[i+1 mod 4]]. *)
Definition side (m : marker) (i : nat) : point :=
  vsub (corner m i) (corner m ((i + 1) mod 4)).

(** Arithmetic mean of the Euclidean lengths of the four sides. *)
Definition mean_side_length (m : marker) : R :=
  fold_right Rplus 0 (map (fun i => norm (side m i)) (seq 0 4)) / 4.

(** ** The specification's wording of the corner selection *)

(** Take out the first point whose y is least ([bottom = false]) or
    greatest ([bottom = true]): the point and the remaining points. *)
Fixpoint extract (bottom : bool) (l : list coord) : option (coord * list coord) :=
  match l with
  | [] => None
  | p :: t =>
      match extract bottom t with
      | None => Some (p, [])
      | Some (q, r) =>
          if (if bottom then (snd q >? snd p)%Z else (snd q <? snd p)%Z)
          then Some (q, p :: r) else Some (p, t)
      end
  end.

(** Repeated extraction: the best point, then the best of the rest. *)
Definition extract_pair (bottom : bool) (l : list coord) : option (coord * coord) :=
  match extract bottom l with
  | Some (p, r) =>
      match extract bottom r with
      | Some (q, _) => Some (p, q)
      | None => None
      end
  | None => None
  end.

(** Top extreme from the two points with the smallest y, bottom
    extreme from the two points with the largest y, by the layout. *)
Definition spec_selector (coords : list coord) (diagonal : string)
  : option (Z * Z * Z * Z) :=
  match extract_pair false coords, extract_pair true coords with
  | Some (p1, p2), Some (p3, p4) =>
      match select diagonal p1 p2 p3 p4 with
      | Ok r => Some r
      | Err _ => None
      end
  | _, _ => None
  end.

(** [r] is [v] rounded up to the half unit: the value
    [ceil(v * 2) / 2], a non-negative multiple of 0.5 not below [v] and
    less than 0.5 above it. *)
Definition rounded_up (v r : R) : Prop :=
  r = IZR (py_ceil (v * 2)) / 2 /\
  (exists k : Z, (0 <= k)%Z /\ r = IZR k * (1 / 2)) /\
  v <= r /\ r - v < 1 / 2.

(** ** The concrete scenario of the specification *)

(** Two square markers of 40 pixels side in the top-left and the
    bottom-right corner of a window spanning 400 x 300 pixels. *)
Definition marker_tl : marker :=
  imarker (0, 0)%Z (40, 0)%Z (40, 40)%Z (0, 40)%Z.

Definition marker_br : marker :=
  imarker (360, 260)%Z (400, 260)%Z (400, 300)%Z (360, 300)%Z.

(** A marker collapsed to the single pixel (0, 0). *)
Definition marker_dot : marker :=
  imarker (0, 0)%Z (0, 0)%Z (0, 0)%Z (0, 0)%Z.

(** The markers of the scenario turned by a quarter: the same squares
    on the same pixels, the detector's cyclic corner order starting at
    the corner that is top-right in the image. *)
Definition marker_tl_turned : marker :=
  imarker (40, 0)%Z (40, 40)%Z (0, 40)%Z (0, 0)%Z.

Definition marker_br_turned : marker :=
  imarker (400, 260)%Z (400, 300)%Z (360, 300)%Z (360, 260)%Z.

(** Their eight rounded corners, pooled. *)
Definition turned_points : list coord :=
  [(40, 0); (40, 40); (0, 40); (0, 0);
   (400, 260); (400, 300); (360, 300); (360, 260)]%Z.

(** A square marker of 60 pixels side level with [marker_tl]. *)
Definition marker_level : marker :=
  imarker (100, 0)%Z (160, 0)%Z (160, 60)%Z (100, 60)%Z.

(** Two square markers of 50 pixels side, tilted alike, one 100 pixels
    below the other. *)
Definition marker_tilted : marker :=
  imarker (30, 0)%Z (70, 30)%Z (40, 70)%Z (0, 40)%Z.

Definition marker_tilted_below : marker :=
  imarker (30, 100)%Z (70, 130)%Z (40, 170)%Z (0, 140)%Z.

(** ** Transformations of the input used in the statements *)

(** The result of a computation mapped through [f]. *)
Definition rmap {A B : Type} (f : A -> B) (r : result A) : result B :=
  match r with
  | Ok a => Ok (f a)
  | Err e => Err e
  end.

(** A pixel whose x is mapped by [f] and whose y is mapped by [g]. *)
Definition map_point (f g : Z -> Z) (p : coord) : coord := (f (fst p), g (snd p)).

(** The same on the four-tuple returned by the selector. *)
Definition map_diagonal (f g : Z -> Z) (r : Z * Z * Z * Z) : Z * Z * Z * Z :=
  let '(tx, ty, bx, by_) := r in (f tx, g ty, f bx, g by_).

Definition increasing (f : Z -> Z) : Prop := forall a b, (a < b)%Z -> (f a < f b)%Z.

Definition decreasing (f : Z -> Z) : Prop := forall a b, (a < b)%Z -> (f b < f a)%Z.

(** Sum of two vectors. *)
Definition vadd (p q : point) : point := (fst p + fst q, snd p + snd q).

(** A marker moved by the vector [v]. *)
Definition translate (v : point) (m : marker) : marker :=
  Marker (vadd (corner0 m) v) (vadd (corner1 m) v)
         (vadd (corner2 m) v) (vadd (corner3 m) v).

(** A marker with every coordinate multiplied by [k]. *)
Definition dilate (k : R) (m : marker) : marker :=
  let mul p := (k * fst p, k * snd p) in
  Marker (mul (corner0 m)) (mul (corner1 m)) (mul (corner2 m)) (mul (corner3 m)).

(** The same corners, listed from the next corner on. *)
Definition rotate_corners (m : marker) : marker :=
  Marker (corner1 m) (corner2 m) (corner3 m) (corner0 m).

(** The same corners, listed in the opposite sense. *)
Definition reverse_corners (m : marker) : marker :=
  Marker (corner0 m) (corner3 m) (corner2 m) (corner1 m).

(** The parallelogram with corner [p] and side vectors [u] and [v]. *)
Definition parallelogram (p u v : point) : marker :=
  Marker p (vadd p u) (vadd (vadd p u) v) (vadd p v).

(** An integer-pixel marker with its corners mapped by [f] and [g]. *)
Definition imarker_map (f g : Z -> Z) (a b c d : coord) : marker :=
  imarker (map_point f g a) (map_point f g b) (map_point f g c) (map_point f g d).

(** * Properties *)

(** ** Integer parts of reals *)

Section RealRounding.

Lemma floorR_spec (x : R) : IZR (floorR x) <= x < IZR (floorR x) + 1.
Proof.
  unfold floorR. rewrite minus_IZR.
  destruct (archimed x) as [Hgt Hle]. lra.
Qed.

Lemma floorR_unique (x : R) (z : Z) : IZR z <= x < IZR z + 1 -> floorR x = z.
Proof.
  intros [Hlo Hhi]. unfold floorR.
  assert (Hup : (z + 1)%Z = up x).
  { apply tech_up; rewrite plus_IZR; lra. }
  rewrite <- Hup. lia.
Qed.

Lemma floorR_IZR (n : Z) : floorR (IZR n) = n.
Proof. apply floorR_unique. lra. Qed.

Lemma py_ceil_spec (x : R) : x <= IZR (py_ceil x) < x + 1.
Proof.
  unfold py_ceil. rewrite opp_IZR.
  pose proof (floorR_spec (- x)). lra.
Qed.

Lemma py_ceil_unique (x : R) (z : Z) : IZR z - 1 < x <= IZR z -> py_ceil x = z.
Proof.
  intros [Hlo Hhi]. unfold py_ceil.
  rewrite (floorR_unique (- x) (- z)%Z); [lia|].
  rewrite opp_IZR. lra.
Qed.

Lemma py_ceil_nonneg (x : R) : 0 <= x -> (0 <= py_ceil x)%Z.
Proof.
  intros Hx. destruct (py_ceil_spec x) as [Hle _].
  apply le_IZR. lra.
Qed.

Lemma py_round_IZR (n : Z) : py_round (IZR n) = n.
Proof.
  unfold py_round. rewrite floorR_IZR.
  destruct (Rlt_dec (IZR n - IZR n) (1 / 2)) as [_|Hn]; [reflexivity|].
  exfalso. apply Hn. lra.
Qed.

End RealRounding.

(** ** The list primitives *)

Section ListPrimitives.

Local Open Scope Z_scope.

Lemma fold_min_spec (t : list Z) : forall x,
  In (fold_left Z.min t x) (x :: t) /\
  (forall y, In y (x :: t) -> fold_left Z.min t x <= y).
Proof.
  induction t as [|a t IH]; intros x; simpl.
  - split; [now left|]. intros y [<-|[]]. lia.
  - destruct (IH (Z.min x a)) as [Hin Hle]. split.
    + destruct Hin as [Heq|Hin]; [|now right; right].
      rewrite <- Heq. destruct (Z.min_spec x a) as [[_ ->]|[_ ->]]; auto.
    + intros y [<-|[<-|Hy]].
      * specialize (Hle (Z.min x a) (or_introl eq_refl)). lia.
      * specialize (Hle (Z.min x a) (or_introl eq_refl)). lia.
      * apply Hle. now right.
Qed.

Lemma fold_max_spec (t : list Z) : forall x,
  In (fold_left Z.max t x) (x :: t) /\
  (forall y, In y (x :: t) -> y <= fold_left Z.max t x).
Proof.
  induction t as [|a t IH]; intros x; simpl.
  - split; [now left|]. intros y [<-|[]]. lia.
  - destruct (IH (Z.max x a)) as [Hin Hle]. split.
    + destruct Hin as [Heq|Hin]; [|now right; right].
      rewrite <- Heq. destruct (Z.max_spec x a) as [[_ ->]|[_ ->]]; auto.
    + intros y [<-|[<-|Hy]].
      * specialize (Hle (Z.max x a) (or_introl eq_refl)). lia.
      * specialize (Hle (Z.max x a) (or_introl eq_refl)). lia.
      * apply Hle. now right.
Qed.

Lemma py_min_ok (l : list Z) : l <> [] -> exists m, py_min l = Ok m /\ is_min m l.
Proof.
  destruct l as [|x t]; [congruence|]. intros _.
  exists (fold_left Z.min t x). split; [reflexivity|]. apply fold_min_spec.
Qed.

Lemma py_max_ok (l : list Z) : l <> [] -> exists m, py_max l = Ok m /\ is_max m l.
Proof.
  destruct l as [|x t]; [congruence|]. intros _.
  exists (fold_left Z.max t x). split; [reflexivity|]. apply fold_max_spec.
Qed.

Lemma py_min_inv (l : list Z) (m : Z) : py_min l = Ok m -> is_min m l.
Proof.
  destruct l as [|x t]; simpl; [discriminate|].
  intros [= <-]. apply fold_min_spec.
Qed.

Lemma py_max_inv (l : list Z) (m : Z) : py_max l = Ok m -> is_max m l.
Proof.
  destruct l as [|x t]; simpl; [discriminate|].
  intros [= <-]. apply fold_max_spec.
Qed.

Lemma is_min_unique (l : list Z) (m m' : Z) : is_min m l -> is_min m' l -> m = m'.
Proof.
  intros [Hin Hle] [Hin' Hle']. specialize (Hle _ Hin'). specialize (Hle' _ Hin). lia.
Qed.

Lemma is_max_unique (l : list Z) (m m' : Z) : is_max m l -> is_max m' l -> m = m'.
Proof.
  intros [Hin Hle] [Hin' Hle']. specialize (Hle _ Hin'). specialize (Hle' _ Hin). lia.
Qed.

Lemma is_min_perm (l l' : list Z) (m : Z) : Permutation l l' -> is_min m l -> is_min m l'.
Proof.
  intros HP [Hin Hle]. split.
  - eapply Permutation_in; eauto.
  - intros y Hy. apply Hle. eapply Permutation_in; [apply Permutation_sym|]; eauto.
Qed.

Lemma is_max_perm (l l' : list Z) (m : Z) : Permutation l l' -> is_max m l -> is_max m l'.
Proof.
  intros HP [Hin Hle]. split.
  - eapply Permutation_in; eauto.
  - intros y Hy. apply Hle. eapply Permutation_in; [apply Permutation_sym|]; eauto.
Qed.

(** [remove] succeeds on an element of the list and leaves the other
    elements, the later occurrences of [v] included. *)
Lemma py_remove_ok (v : Z) (l : list Z) :
  In v l -> exists r, py_remove v l = Ok r /\ Permutation l (v :: r).
Proof.
  induction l as [|x t IH]; simpl; [tauto|]. intros Hin.
  destruct (Z.eqb_spec x v) as [->|Hne].
  - exists t. split; [reflexivity|apply Permutation_refl].
  - destruct Hin as [Heq|Hin]; [congruence|].
    destruct (IH Hin) as [r [-> HP]]. exists (x :: r). split; [reflexivity|].
    eapply perm_trans; [apply perm_skip, HP|apply perm_swap].
Qed.

Lemma py_remove_inv (v : Z) (l r : list Z) :
  py_remove v l = Ok r -> Permutation l (v :: r).
Proof.
  revert r. induction l as [|x t IH]; simpl; intros r; [discriminate|].
  destruct (Z.eqb_spec x v) as [->|Hne].
  - intros [= <-]. apply Permutation_refl.
  - destruct (py_remove v t) as [r'|e]; simpl; [|discriminate].
    intros [= <-]. eapply perm_trans; [apply perm_skip, IH; reflexivity|apply perm_swap].
Qed.

(** [index] succeeds on an element of the list. *)
Lemma py_index_ok (v : Z) (l : list Z) :
  In v l -> exists i, py_index v l = Ok i.
Proof.
  induction l as [|x t IH]; simpl; [tauto|]. intros Hin.
  destruct (Z.eqb_spec x v) as [->|Hne]; [now exists O|].
  destruct Hin as [Heq|Hin]; [congruence|].
  destruct (IH Hin) as [i ->]. now exists (S i).
Qed.

End ListPrimitives.

(** ** The corner selection in closed form *)

Section Selection.

Local Open Scope Z_scope.

Lemma py_index_first (v : Z) (l : list Z) : forall i,
  py_index v l = Ok i -> first_at v l i.
Proof.
  induction l as [|x t IH]; simpl; intros i; [discriminate|].
  destruct (Z.eqb_spec x v) as [->|Hne].
  - intros [= <-]. split; [reflexivity|]. intros j Hj. lia.
  - destruct (py_index v t) as [k|e]; simpl; [|discriminate].
    intros [= <-]. destruct (IH k eq_refl) as [Hk Hbefore]. split; [exact Hk|].
    intros [|j] Hj; simpl; [congruence|]. apply Hbefore. lia.
Qed.

Lemma first_at_unique (v : Z) (l : list Z) (i j : nat) :
  first_at v l i -> first_at v l j -> i = j.
Proof.
  intros [Hi Hbi] [Hj Hbj].
  destruct (Nat.lt_trichotomy i j) as [Hlt|[Heq|Hgt]]; [|exact Heq|].
  - exfalso. exact (Hbj i Hlt Hi).
  - exfalso. exact (Hbi j Hgt Hj).
Qed.

(** Indexing the points at [index] of a y-value yields the first point
    with that y-value. *)
Lemma py_index_point (v : Z) (coords : list coord) : forall i,
  py_index v (map snd coords) = Ok i ->
  exists p, py_get coords i = Ok p /\ point_at v coords = Some p.
Proof.
  unfold py_get, point_at.
  induction coords as [|q t IH]; simpl; intros i; [discriminate|].
  destruct (Z.eqb_spec (snd q) v) as [Hq|Hne].
  - intros [= <-]. exists q. split; reflexivity.
  - destruct (py_index v (map snd t)) as [k|e]; simpl; [|discriminate].
    intros [= <-]. simpl. apply IH. reflexivity.
Qed.

Lemma point_at_snd (v : Z) (coords : list coord) (p : coord) :
  point_at v coords = Some p -> snd p = v /\ In p coords.
Proof.
  unfold point_at. intros H. apply find_some in H. destruct H as [Hin Hv].
  split; [now apply Z.eqb_eq|exact Hin].
Qed.

Lemma extreme_ys_inv (ys : list Z) (y1 y2 y3 y4 : Z) :
  extreme_ys ys = Ok (y1, y2, y3, y4) ->
  exists tmp tmp', extremes ys y1 y2 y3 y4 tmp tmp'.
Proof.
  unfold extreme_ys.
  destruct (py_min ys) as [m1|e] eqn:E1; simpl; [|discriminate].
  destruct (py_remove m1 ys) as [tmp|e] eqn:E2; simpl; [|discriminate].
  destruct (py_min tmp) as [m2|e] eqn:E3; simpl; [|discriminate].
  destruct (py_max tmp) as [m3|e] eqn:E4; simpl; [|discriminate].
  destruct (py_remove m3 tmp) as [tmp'|e] eqn:E5; simpl; [|discriminate].
  destruct (py_max tmp') as [m4|e] eqn:E6; simpl; [|discriminate].
  intros [= <- <- <- <-]. exists tmp, tmp'.
  constructor; auto using py_min_inv, py_max_inv, py_remove_inv.
Qed.

Lemma extremes_in (ys : list Z) (y1 y2 y3 y4 : Z) (tmp tmp' : list Z) :
  extremes ys y1 y2 y3 y4 tmp tmp' ->
  In y1 ys /\ In y2 ys /\ In y3 ys /\ In y4 ys.
Proof.
  intros [[H1 _] P1 [H2 _] [H3 _] P3 [H4 _]].
  assert (Htmp : forall y, In y tmp -> In y ys).
  { intros y Hy. eapply Permutation_in; [apply Permutation_sym, P1|]. now right. }
  assert (Htmp' : forall y, In y tmp' -> In y tmp).
  { intros y Hy. eapply Permutation_in; [apply Permutation_sym, P3|]. now right. }
  repeat split; auto.
Qed.

(** On three points or more the four values exist. *)
Lemma extreme_ys_ok (ys : list Z) :
  (3 <= List.length ys)%nat -> exists y1 y2 y3 y4, extreme_ys ys = Ok (y1, y2, y3, y4).
Proof.
  intros Hlen. unfold extreme_ys.
  destruct (py_min_ok ys) as [y1 [E1 [Hin1 _]]].
  { destruct ys; simpl in Hlen; [lia|congruence]. }
  rewrite E1; simpl.
  destruct (py_remove_ok y1 ys Hin1) as [tmp [E2 P1]]. rewrite E2; simpl.
  pose proof (Permutation_length P1) as L1. simpl in L1.
  assert (Hne : tmp <> []) by (destruct tmp; simpl in L1; [lia|congruence]).
  destruct (py_min_ok tmp Hne) as [y2 [E3 _]]. rewrite E3; simpl.
  destruct (py_max_ok tmp Hne) as [y3 [E4 [Hin3 _]]]. rewrite E4; simpl.
  destruct (py_remove_ok y3 tmp Hin3) as [tmp' [E5 P3]]. rewrite E5; simpl.
  pose proof (Permutation_length P3) as L3. simpl in L3.
  assert (Hne' : tmp' <> []) by (destruct tmp'; simpl in L3; [lia|congruence]).
  destruct (py_max_ok tmp' Hne') as [y4 [E6 _]]. rewrite E6; simpl.
  now exists y1, y2, y3, y4.
Qed.

Lemma extreme_indices_closed (coords : list coord) (y1 y2 y3 y4 : Z) :
  extreme_ys (map snd coords) = Ok (y1, y2, y3, y4) ->
  exists i1 i2 i3 i4,
    extreme_indices coords = Ok (i1, i2, i3, i4) /\
    py_index y1 (map snd coords) = Ok i1 /\
    py_index y2 (map snd coords) = Ok i2 /\
    py_index y3 (map snd coords) = Ok i3 /\
    py_index y4 (map snd coords) = Ok i4.
Proof.
  intros Hys.
  destruct (extreme_ys_inv _ _ _ _ _ Hys) as [tmp [tmp' Hex]].
  destruct (extremes_in _ _ _ _ _ _ _ Hex) as [H1 [H2 [H3 H4]]].
  destruct (py_index_ok _ _ H1) as [i1 I1].
  destruct (py_index_ok _ _ H2) as [i2 I2].
  destruct (py_index_ok _ _ H3) as [i3 I3].
  destruct (py_index_ok _ _ H4) as [i4 I4].
  exists i1, i2, i3, i4. repeat split; auto.
  revert Hys. unfold extreme_ys, extreme_indices.
  destruct (py_min (map snd coords)) as [m1|e]; simpl; [|discriminate].
  destruct (py_remove m1 (map snd coords)) as [t1|e]; simpl; [|discriminate].
  destruct (py_min t1) as [m2|e]; simpl; [|discriminate].
  destruct (py_max t1) as [m3|e]; simpl; [|discriminate].
  destruct (py_remove m3 t1) as [t2|e]; simpl; [|discriminate].
  destruct (py_max t2) as [m4|e]; simpl; [|discriminate].
  intros [= -> -> -> ->].
  rewrite I1; simpl. rewrite I2; simpl. rewrite I3; simpl. rewrite I4; simpl.
  reflexivity.
Qed.

(** The selector returns [select] of the first points that carry the
    four values. *)
Lemma get_diff_closed (coords : list coord) (diagonal : string) (y1 y2 y3 y4 : Z) :
  extreme_ys (map snd coords) = Ok (y1, y2, y3, y4) ->
  exists p1 p2 p3 p4,
    point_at y1 coords = Some p1 /\ point_at y2 coords = Some p2 /\
    point_at y3 coords = Some p3 /\ point_at y4 coords = Some p4 /\
    get_diff_two_markers_px coords diagonal = select diagonal p1 p2 p3 p4.
Proof.
  intros Hys.
  destruct (extreme_indices_closed _ _ _ _ _ Hys) as [i1 [i2 [i3 [i4 [E [I1 [I2 [I3 I4]]]]]]]].
  destruct (py_index_point _ _ _ I1) as [p1 [G1 P1]].
  destruct (py_index_point _ _ _ I2) as [p2 [G2 P2]].
  destruct (py_index_point _ _ _ I3) as [p3 [G3 P3]].
  destruct (py_index_point _ _ _ I4) as [p4 [G4 P4]].
  exists p1, p2, p3, p4. repeat split; auto.
  unfold get_diff_two_markers_px, select. rewrite E; simpl.
  rewrite G1, G2, G3, G4; simpl.
  destruct (String.eqb diagonal "TLBR"); [reflexivity|].
  destruct (String.eqb diagonal "TRBL"); reflexivity.
Qed.

End Selection.

(** ** The scale *)

Section Scale.

Lemma norm_nonneg (d : point) : 0 <= norm d.
Proof. apply sqrt_pos. Qed.

Lemma norm_zero (d : point) : norm d = 0 -> d = (0, 0).
Proof.
  destruct d as [x y]. unfold norm. simpl. intros H.
  apply sqrt_eq_0 in H; [|nra].
  assert (x = 0) by nra. assert (y = 0) by nra. congruence.
Qed.

Lemma norm_origin : norm (0, 0) = 0.
Proof. unfold norm. simpl. rewrite Rmult_0_l, Rplus_0_l. apply sqrt_0. Qed.

Lemma vsub_zero (p q : point) : vsub p q = (0, 0) -> p = q.
Proof.
  destruct p as [a b], q as [c d]. unfold vsub. simpl.
  intros [= H1 H2]. f_equal; lra.
Qed.

Lemma vsub_diag (p : point) : vsub p p = (0, 0).
Proof. destruct p as [a b]. unfold vsub. simpl. f_equal; lra. Qed.

Lemma get_scale_sum (m : marker) :
  get_scale m =
  (norm (vsub (corner0 m) (corner1 m)) + norm (vsub (corner1 m) (corner2 m)) +
   norm (vsub (corner2 m) (corner3 m)) + norm (vsub (corner3 m) (corner0 m))) / 4.
Proof. unfold get_scale, average. simpl. lra. Qed.

Lemma get_scale_nonneg (m : marker) : 0 <= get_scale m.
Proof.
  rewrite get_scale_sum.
  pose proof (norm_nonneg (vsub (corner0 m) (corner1 m))).
  pose proof (norm_nonneg (vsub (corner1 m) (corner2 m))).
  pose proof (norm_nonneg (vsub (corner2 m) (corner3 m))).
  pose proof (norm_nonneg (vsub (corner3 m) (corner0 m))).
  lra.
Qed.

Lemma get_scale_all_identical (m : marker) : all_identical m -> get_scale m = 0.
Proof.
  intros [H01 [H12 H23]]. rewrite get_scale_sum.
  rewrite <- H23, <- H12, <- H01. rewrite vsub_diag, norm_origin. lra.
Qed.

Lemma get_scale_zero (m : marker) : get_scale m = 0 -> all_identical m.
Proof.
  rewrite get_scale_sum. intros H.
  pose proof (norm_nonneg (vsub (corner0 m) (corner1 m))) as N0.
  pose proof (norm_nonneg (vsub (corner1 m) (corner2 m))) as N1.
  pose proof (norm_nonneg (vsub (corner2 m) (corner3 m))) as N2.
  pose proof (norm_nonneg (vsub (corner3 m) (corner0 m))) as N3.
  repeat split; apply vsub_zero, norm_zero; lra.
Qed.

Lemma get_scale_pos (m : marker) : non_degenerate m -> 0 < get_scale m.
Proof.
  intros Hnd. destruct (get_scale_nonneg m) as [Hlt|Heq]; [exact Hlt|].
  exfalso. apply Hnd, get_scale_zero. auto.
Qed.

Lemma MM_IN_RATIO_pos : 0 < MM_IN_RATIO.
Proof. unfold MM_IN_RATIO. lra. Qed.

End Scale.

(** ** Rounding up to the half unit *)

Section HalfUnits.

Lemma round_up_half_ge (v : R) : v <= round_up_half v.
Proof. unfold round_up_half. pose proof (py_ceil_spec (v * 2)). lra. Qed.

Lemma round_up_half_lt (v : R) : round_up_half v - v < 1 / 2.
Proof. unfold round_up_half. pose proof (py_ceil_spec (v * 2)). lra. Qed.

Lemma round_up_half_multiple (v : R) :
  0 <= v -> exists k : Z, (0 <= k)%Z /\ round_up_half v = IZR k * (1 / 2).
Proof.
  intros Hv. exists (py_ceil (v * 2)). split.
  - apply py_ceil_nonneg. lra.
  - unfold round_up_half. lra.
Qed.

Lemma round_up_half_eq (v : R) (k : Z) :
  (IZR k - 1) / 2 < v <= IZR k / 2 -> round_up_half v = IZR k / 2.
Proof.
  intros H. unfold round_up_half. rewrite (py_ceil_unique (v * 2) k); [reflexivity|lra].
Qed.

Lemma to_inches_nonneg (px size : Z) (scale border : R) :
  (0 <= px)%Z -> (0 <= size)%Z -> 0 < scale -> 0 <= border ->
  0 <= to_inches px size scale border.
Proof.
  intros Hpx Hsize Hscale Hborder. unfold to_inches.
  apply IZR_le in Hpx. apply IZR_le in Hsize.
  pose proof MM_IN_RATIO_pos as HM.
  assert (0 <= IZR size / scale).
  { apply Rmult_le_pos; [lra|]. left. now apply Rinv_0_lt_compat. }
  assert (0 <= IZR px * (IZR size / scale) / MM_IN_RATIO).
  { apply Rmult_le_pos; [now apply Rmult_le_pos|]. left. now apply Rinv_0_lt_compat. }
  lra.
Qed.

End HalfUnits.

(** ** The pipeline on two markers *)

Section Pipeline.

(** The two markers of the detection result, in the detector's order. *)
Variables A B : marker.

Lemma clean_rows (m : marker) :
  clean m =
  [ anchor m;
    (py_round (fst (corner1 m)), py_round (snd (corner1 m)));
    (py_round (fst (corner2 m)), py_round (snd (corner2 m)));
    (py_round (fst (corner3 m)), py_round (snd (corner3 m))) ].
Proof. reflexivity. Qed.

Lemma clean_length (m : marker) : List.length (clean m) = 4%nat.
Proof. reflexivity. Qed.

Lemma clean_imarker (a b c d : coord) : clean (imarker a b c d) = [a; b; c; d].
Proof.
  unfold clean, imarker, ipoint. simpl. rewrite !py_round_IZR.
  destruct a, b, c, d. reflexivity.
Qed.

Lemma diagonal_of_clean :
  diagonal_of (clean A) (clean B) = Ok (layout (anchor A) (anchor B)).
Proof.
  unfold diagonal_of, layout, py_get, anchor. simpl.
  destruct (py_round (fst (corner0 A)) <? py_round (fst (corner0 B)))%Z; reflexivity.
Qed.

Lemma layout_cases (a b : coord) :
  layout a b = "TLBR"%string \/ layout a b = "TRBL"%string.
Proof.
  unfold layout.
  destruct (fst a <? fst b)%Z.
  - destruct (snd a <? snd b)%Z; auto.
  - destruct (snd b <? snd a)%Z; auto.
Qed.

Lemma select_valid (d : string) (p1 p2 p3 p4 : coord) :
  d = "TLBR"%string \/ d = "TRBL"%string ->
  exists r, select d p1 p2 p3 p4 = Ok r.
Proof. intros [->| ->]; unfold select; simpl; eauto. Qed.

Lemma pixel_extents_pair :
  pixel_extents [A; B] =
  ('(t_coord_x, t_coord_y, b_coord_x, b_coord_y) <-
     get_diff_two_markers_px (clean A ++ clean B) (layout (anchor A) (anchor B)) ;;
   Ok (Z.abs (t_coord_x - b_coord_x), Z.abs (t_coord_y - b_coord_y))).
Proof.
  unfold pixel_extents. simpl map. unfold py_get at 1 2. simpl nth_error. simpl bind at 1.
  cbv beta. rewrite diagonal_of_clean. reflexivity.
Qed.

Lemma get_diff_pair_ok (d : string) :
  d = "TLBR"%string \/ d = "TRBL"%string ->
  exists r, get_diff_two_markers_px (clean A ++ clean B) d = Ok r.
Proof.
  intros Hd.
  destruct (extreme_ys_ok (map snd (clean A ++ clean B))) as [y1 [y2 [y3 [y4 Hys]]]].
  { rewrite length_map, length_app, !clean_length. lia. }
  destruct (get_diff_closed _ d _ _ _ _ Hys) as [p1 [p2 [p3 [p4 [_ [_ [_ [_ ->]]]]]]]].
  now apply select_valid.
Qed.

Lemma pixel_extents_ok :
  exists h_px w_px,
    pixel_extents [A; B] = Ok (h_px, w_px) /\ (0 <= h_px)%Z /\ (0 <= w_px)%Z.
Proof.
  rewrite pixel_extents_pair.
  destruct (get_diff_pair_ok _ (layout_cases (anchor A) (anchor B)))
    as [[[[tx ty] bx] by_] ->].
  simpl. eexists _, _. split; [reflexivity|]. split; apply Z.abs_nonneg.
Qed.

Lemma check_ids_two (i j : Z) : check_ids (Some [i; j]) = Ok tt.
Proof. reflexivity. Qed.

Lemma scale_of_pair :
  scale_of [A; B] = Ok ((get_scale A + get_scale B) / 2).
Proof. reflexivity. Qed.

(** The result on two markers with a non-zero scale. *)
Lemma calculate_two_markers_run (i j : Z) (size : Z) (border : R)
    (h_px w_px : Z) :
  pixel_extents [A; B] = Ok (h_px, w_px) ->
  (get_scale A + get_scale B) / 2 <> 0 ->
  calculate_two_markers [A; B] (Some [i; j]) size border =
  Ok (round_up_half (to_inches h_px size ((get_scale A + get_scale B) / 2) border),
      round_up_half (to_inches w_px size ((get_scale A + get_scale B) / 2) border)).
Proof.
  intros Hpx Hs. unfold calculate_two_markers.
  rewrite check_ids_two, scale_of_pair, Hpx. simpl.
  destruct (Req_dec_T ((get_scale A + get_scale B) / 2) 0) as [Hz|_]; [contradiction|].
  reflexivity.
Qed.

End Pipeline.

(** ** Facts about the concrete scenario *)

Section Scenario.

Lemma ipoint_inj (a b : coord) : ipoint a = ipoint b -> a = b.
Proof.
  destruct a as [ax ay], b as [bx by_]. unfold ipoint. simpl.
  intros [= Hx Hy]. apply eq_IZR in Hx. apply eq_IZR in Hy. congruence.
Qed.

Lemma imarker_non_degenerate (a b c d : coord) :
  a <> b -> non_degenerate (imarker a b c d).
Proof.
  intros Hab [H01 _]. simpl in H01. apply Hab. now apply ipoint_inj.
Qed.

Lemma marker_tl_non_degenerate : non_degenerate marker_tl.
Proof. apply imarker_non_degenerate. discriminate. Qed.

Lemma marker_br_non_degenerate : non_degenerate marker_br.
Proof. apply imarker_non_degenerate. discriminate. Qed.

End Scenario.

(** ** Rounding of the result *)

(** C1: on every valid input (two markers, neither with four
    coinciding corners, a non-negative border offset, a non-negative
    marker size) [calculate_two_markers] returns a (height, width)
    pair; each returned value is [ceil(v * 2) / 2] for the raw value
    [v] computed before rounding, is a non-negative multiple of 0.5,
    is not below [v] and is less than 0.5 above it. *)
Theorem calculate_two_markers_rounds_up
    (A B : marker) (i j : Z) (marker_size_mm : Z) (border_offset_in : R) :
  non_degenerate A -> non_degenerate B ->
  0 <= border_offset_in -> (0 <= marker_size_mm)%Z ->
  exists h_px w_px : Z,
    pixel_extents [A; B] = Ok (h_px, w_px) /\
    let scale_px := (get_scale A + get_scale B) / 2 in
    let h_in := to_inches h_px marker_size_mm scale_px border_offset_in in
    let w_in := to_inches w_px marker_size_mm scale_px border_offset_in in
    exists h w : R,
      calculate_two_markers [A; B] (Some [i; j]) marker_size_mm border_offset_in
        = Ok (h, w) /\
      rounded_up h_in h /\ rounded_up w_in w.
Proof.
  intros HA HB Hborder Hsize.
  destruct (pixel_extents_ok A B) as [h_px [w_px [Hpx [Hh Hw]]]].
  exists h_px, w_px. split; [exact Hpx|]. cbv zeta.
  pose proof (get_scale_pos A HA) as PA. pose proof (get_scale_pos B HB) as PB.
  assert (Hscale : 0 < (get_scale A + get_scale B) / 2) by lra.
  eexists _, _. split.
  - apply calculate_two_markers_run; [exact Hpx|lra].
  - split; unfold rounded_up.
    + split; [reflexivity|]. split; [|split].
      * apply round_up_half_multiple. now apply to_inches_nonneg.
      * apply round_up_half_ge.
      * apply round_up_half_lt.
    + split; [reflexivity|]. split; [|split].
      * apply round_up_half_multiple. now apply to_inches_nonneg.
      * apply round_up_half_ge.
      * apply round_up_half_lt.
Qed.

Lemma calculate_two_markers_rounds_up_witness :
  exists h_px w_px : Z,
    pixel_extents [marker_tl; marker_br] = Ok (h_px, w_px) /\
    let scale_px := (get_scale marker_tl + get_scale marker_br) / 2 in
    let h_in := to_inches h_px 20 scale_px 0 in
    let w_in := to_inches w_px 20 scale_px 0 in
    exists h w : R,
      calculate_two_markers [marker_tl; marker_br] (Some [0; 1]%Z) 20 0 = Ok (h, w) /\
      rounded_up h_in h /\ rounded_up w_in w.
Proof.
  apply (calculate_two_markers_rounds_up marker_tl marker_br 0 1 20 0).
  - exact marker_tl_non_degenerate.
  - exact marker_br_non_degenerate.
  - lra.
  - lia.
Defined.

(** ** The guard on the marker count *)

(** C6: whenever the detector does not report exactly two markers (no
    identifiers at all, or a list of identifiers of a length other than
    two), [calculate_two_markers] raises the wrong-marker-count error,
    whatever the corner data are: no later step (scale, classification,
    corner selection, dimensions) is reached or can fail first. *)
Theorem wrong_marker_count_raises
    (corners : list marker) (ids : option (list Z))
    (marker_size_mm : Z) (border_offset_in : R) :
  (forall l, ids = Some l -> List.length l <> 2%nat) ->
  calculate_two_markers corners ids marker_size_mm border_offset_in
    = Err WrongMarkerCount.
Proof.
  intros Hcount. unfold calculate_two_markers, check_ids.
  destruct ids as [l|]; [|reflexivity].
  destruct (Nat.eqb_spec (List.length l) 2) as [Heq|Hne]; [|reflexivity].
  exfalso. exact (Hcount l eq_refl Heq).
Qed.

Lemma wrong_marker_count_raises_witness :
  calculate_two_markers [marker_tl] (Some [7%Z]) 20 0 = Err WrongMarkerCount.
Proof.
  apply (wrong_marker_count_raises [marker_tl] (Some [7%Z]) 20 0).
  intros l [= <-]. simpl. lia.
Defined.

(** ** The scale is the mean side length *)

(** C4: [get_scale] returns the arithmetic mean of the Euclidean
    lengths of the four side vectors [corner[i] - corner[i+1 mod 4]];
    the scale of the pipeline is the average of the two markers' means,
    and it is the scale the dimensions are computed with. *)
Theorem get_scale_is_mean_side_length :
  (forall m : marker, get_scale m = mean_side_length m) /\
  (forall A B : marker,
     scale_of [A; B] = Ok ((mean_side_length A + mean_side_length B) / 2)) /\
  (forall (A B : marker) (i j marker_size_mm : Z) (border_offset_in : R),
     calculate_two_markers [A; B] (Some [i; j]) marker_size_mm border_offset_in =
     ('(h_px, w_px) <- pixel_extents [A; B] ;;
      let scale_px := (mean_side_length A + mean_side_length B) / 2 in
      if Req_dec_T scale_px 0 then Err NonFinite
      else Ok (round_up_half (to_inches h_px marker_size_mm scale_px border_offset_in),
               round_up_half (to_inches w_px marker_size_mm scale_px border_offset_in)))).
Proof.
  assert (Hmean : forall m : marker, get_scale m = mean_side_length m).
  { intros m. rewrite get_scale_sum. unfold mean_side_length, side, corner, rows.
    simpl. lra. }
  split; [exact Hmean|]. split.
  - intros A B. rewrite scale_of_pair, !Hmean. reflexivity.
  - intros A B i j size border. unfold calculate_two_markers.
    rewrite check_ids_two, scale_of_pair, !Hmean. reflexivity.
Qed.

(** ** The diagonal classification *)

Lemma anchor_imarker (a b c d : coord) : anchor (imarker a b c d) = a.
Proof.
  unfold anchor, imarker, ipoint. simpl. rewrite !py_round_IZR. now destruct a.
Qed.

Lemma layout_flip (a b a' b' : coord) :
  snd a' = snd a -> snd b' = snd b ->
  ((fst a < fst b /\ fst b' < fst a') \/ (fst b < fst a /\ fst a' < fst b'))%Z ->
  snd a <> snd b ->
  ((layout a b = "TLBR" /\ layout a' b' = "TRBL") \/
   (layout a b = "TRBL" /\ layout a' b' = "TLBR"))%string.
Proof.
  destruct a as [ax ay], b as [bx by_], a' as [ax' ay'], b' as [bx' by'].
  unfold layout. simpl. intros -> -> Hx Hy.
  destruct (Z.ltb_spec ax bx); destruct (Z.ltb_spec ax' bx'); try lia; cbn [fst snd];
    destruct (Z.ltb_spec ay by_); destruct (Z.ltb_spec by_ ay); try lia; auto.
Qed.

(** C3: the layout handed to the corner selection is decided from the
    two (rounded) anchors: the first marker is labelled top when its
    anchor has the strictly smaller x, the second marker otherwise,
    and the layout is TLBR when the top anchor's y is smaller than the
    bottom anchor's y, TRBL otherwise.  For markers whose anchors
    differ in y, reversing the x-order of the two anchors (with their
    y kept) flips the layout. *)
Theorem diagonal_classification :
  (forall A B : marker,
     diagonal_of (clean A) (clean B) = Ok (layout (anchor A) (anchor B)) /\
     pixel_extents [A; B] =
       ('(t_x, t_y, b_x, b_y) <-
          get_diff_two_markers_px (clean A ++ clean B) (layout (anchor A) (anchor B)) ;;
        Ok (Z.abs (t_x - b_x), Z.abs (t_y - b_y)))) /\
  (forall a b : coord,
     layout a b =
     if (fst a <? fst b)%Z
     then (if (snd a <? snd b)%Z then "TLBR" else "TRBL")%string
     else (if (snd b <? snd a)%Z then "TLBR" else "TRBL")%string) /\
  (forall A B A' B' : marker,
     snd (anchor A') = snd (anchor A) ->
     snd (anchor B') = snd (anchor B) ->
     ((fst (anchor A) < fst (anchor B) /\ fst (anchor B') < fst (anchor A')) \/
      (fst (anchor B) < fst (anchor A) /\ fst (anchor A') < fst (anchor B')))%Z ->
     snd (anchor A) <> snd (anchor B) ->
     exists d d' : string,
       diagonal_of (clean A) (clean B) = Ok d /\
       diagonal_of (clean A') (clean B') = Ok d' /\
       ((d = "TLBR" /\ d' = "TRBL") \/ (d = "TRBL" /\ d' = "TLBR"))%string).
Proof.
  split; [|split].
  - intros A B. split; [apply diagonal_of_clean|apply pixel_extents_pair].
  - intros a b. unfold layout. destruct (fst a <? fst b)%Z; reflexivity.
  - intros A B A' B' HA' HB' Hx Hy.
    exists (layout (anchor A) (anchor B)), (layout (anchor A') (anchor B')).
    split; [apply diagonal_of_clean|]. split; [apply diagonal_of_clean|].
    now apply layout_flip.
Qed.

Lemma diagonal_classification_witness :
  exists d d' : string,
    diagonal_of (clean marker_tl) (clean marker_br) = Ok d /\
    diagonal_of
      (clean (imarker (360, 0)%Z (400, 0)%Z (400, 40)%Z (360, 40)%Z))
      (clean (imarker (0, 260)%Z (40, 260)%Z (40, 300)%Z (0, 300)%Z)) = Ok d' /\
    ((d = "TLBR" /\ d' = "TRBL") \/ (d = "TRBL" /\ d' = "TLBR"))%string.
Proof.
  apply (proj2 (proj2 diagonal_classification)); unfold marker_tl, marker_br;
    rewrite !anchor_imarker; simpl; solve [reflexivity | lia].
Defined.

(** ** The concrete scenario *)

Section ScenarioValues.

Lemma norm_eq (d : point) (r : R) :
  0 <= r -> fst d * fst d + snd d * snd d = r * r -> norm d = r.
Proof. intros Hr Hsq. unfold norm. rewrite Hsq. now apply sqrt_square. Qed.

Lemma get_scale_marker_tl : get_scale marker_tl = 40.
Proof.
  rewrite get_scale_sum. unfold marker_tl, imarker, ipoint, vsub. simpl.
  rewrite (norm_eq _ 40), (norm_eq _ 40), (norm_eq _ 40), (norm_eq _ 40);
    simpl; lra.
Qed.

Lemma get_scale_marker_br : get_scale marker_br = 40.
Proof.
  rewrite get_scale_sum. unfold marker_br, imarker, ipoint, vsub. simpl.
  rewrite (norm_eq _ 40), (norm_eq _ 40), (norm_eq _ 40), (norm_eq _ 40);
    simpl; lra.
Qed.

Lemma clean_marker_tl : clean marker_tl = [(0, 0); (40, 0); (40, 40); (0, 40)]%Z.
Proof. apply clean_imarker. Qed.

Lemma clean_marker_br :
  clean marker_br = [(360, 260); (400, 260); (400, 300); (360, 300)]%Z.
Proof. apply clean_imarker. Qed.

Lemma pixel_extents_scenario :
  pixel_extents [marker_tl; marker_br] = Ok (400, 300)%Z.
Proof.
  rewrite pixel_extents_pair. unfold marker_tl, marker_br.
  rewrite !anchor_imarker, !clean_imarker. reflexivity.
Qed.

Lemma inches_400 : round_up_half (to_inches 400 20 40 0) = 8.
Proof.
  rewrite (round_up_half_eq _ 16); [lra|].
  unfold to_inches, MM_IN_RATIO. lra.
Qed.

Lemma inches_300 : round_up_half (to_inches 300 20 40 0) = 6.
Proof.
  rewrite (round_up_half_eq _ 12); [lra|].
  unfold to_inches, MM_IN_RATIO. lra.
Qed.

End ScenarioValues.

(** C5: in the concrete scenario (two square markers of 40 pixels
    side, so a scale of 40 pixels; marker size 20 mm; selected corners
    400 pixels apart in x and 300 pixels apart in y; 25.4 mm per inch;
    no border offset) one pixel is 0.5 mm, the pixel height is the
    x-spread 400 and the pixel width the y-spread 300, and the result
    is a height of 8.0 inches and a width of 6.0 inches. *)
Theorem concrete_scenario :
  scale_of [marker_tl; marker_br] = Ok 40 /\
  IZR 20 / 40 = 1 / 2 /\
  MM_IN_RATIO = 25.4 /\
  get_diff_two_markers_px (clean marker_tl ++ clean marker_br) "TLBR"
    = Ok (0, 0, 400, 300)%Z /\
  pixel_extents [marker_tl; marker_br]
    = Ok (Z.abs (0 - 400), Z.abs (0 - 300)) /\
  to_inches 400 20 40 0 = 200 / 25.4 /\
  to_inches 300 20 40 0 = 150 / 25.4 /\
  calculate_two_markers [marker_tl; marker_br] (Some [0; 1]%Z) 20 0 = Ok (8, 6).
Proof.
  assert (Hscale : (get_scale marker_tl + get_scale marker_br) / 2 = 40).
  { rewrite get_scale_marker_tl, get_scale_marker_br. lra. }
  split; [|split; [|split; [|split; [|split; [|split; [|split]]]]]].
  - rewrite scale_of_pair, Hscale. reflexivity.
  - lra.
  - unfold MM_IN_RATIO, Q2R. simpl. lra.
  - rewrite clean_marker_tl, clean_marker_br. reflexivity.
  - apply pixel_extents_scenario.
  - unfold to_inches, MM_IN_RATIO, Q2R. simpl. lra.
  - unfold to_inches, MM_IN_RATIO, Q2R. simpl. lra.
  - rewrite (calculate_two_markers_run _ _ _ _ _ _ _ _ pixel_extents_scenario).
    + rewrite Hscale, inches_400, inches_300. reflexivity.
    + rewrite Hscale. lra.
Qed.

(** ** Dependence on the marker size *)

Section MarkerSize.

Lemma to_inches_double (px size : Z) (scale border : R) :
  to_inches px (2 * size) scale border
  = 2 * to_inches px size scale border - 2 * border.
Proof. unfold to_inches. rewrite mult_IZR. unfold Rdiv. ring. Qed.

Lemma inches_400_double : round_up_half (to_inches 400 40 40 0) = 16.
Proof.
  rewrite (round_up_half_eq _ 32); [lra|].
  unfold to_inches, MM_IN_RATIO. lra.
Qed.

Lemma inches_300_double : round_up_half (to_inches 300 40 40 0) = 12.
Proof.
  rewrite (round_up_half_eq _ 24); [lra|].
  unfold to_inches, MM_IN_RATIO. lra.
Qed.

Lemma scenario_scale : (get_scale marker_tl + get_scale marker_br) / 2 = 40.
Proof. rewrite get_scale_marker_tl, get_scale_marker_br. lra. Qed.

Lemma scenario_result (size : Z) :
  calculate_two_markers [marker_tl; marker_br] (Some [0; 1]%Z) size 0 =
  Ok (round_up_half (to_inches 400 size 40 0), round_up_half (to_inches 300 size 40 0)).
Proof.
  rewrite (calculate_two_markers_run _ _ _ _ _ _ _ _ pixel_extents_scenario).
  - rewrite scenario_scale. reflexivity.
  - rewrite scenario_scale. lra.
Qed.

End MarkerSize.

(** C9, the claim as stated fails: with the pixel geometry of the
    concrete scenario, a marker size of 20 mm gives (8, 6) and the
    doubled size of 40 mm gives (16, 12), not the halves (4, 3). *)
Lemma doubling_does_not_halve :
  ~ (forall (corners : list marker) (ids : option (list Z)) (size : Z) (border : R)
            (h w h' w' : R),
       calculate_two_markers corners ids size border = Ok (h, w) ->
       calculate_two_markers corners ids (2 * size) border = Ok (h', w') ->
       h' = h / 2 /\ w' = w / 2).
Proof.
  intros Hhalf.
  destruct (Hhalf [marker_tl; marker_br] (Some [0; 1]%Z) 20%Z 0 8 6 16 12) as [Hh _].
  - rewrite scenario_result, inches_400, inches_300. reflexivity.
  - change (2 * 20)%Z with 40%Z.
    rewrite scenario_result, inches_400_double, inches_300_double. reflexivity.
  - lra.
Qed.

(** C9, amended: for fixed pixel geometry the pixel scale does not
    depend on the reported marker size, and doubling the marker size
    doubles the millimetres per pixel and the raw (pre-rounding)
    dimensions net of the border offset; the returned dimensions are
    these doubled raw values rounded up. *)
Theorem doubling_marker_size_doubles
    (A B : marker) (i j : Z) (marker_size_mm : Z) (border_offset_in : R) :
  (get_scale A + get_scale B) / 2 <> 0 ->
  exists h_px w_px : Z,
    pixel_extents [A; B] = Ok (h_px, w_px) /\
    let scale_px := (get_scale A + get_scale B) / 2 in
    let h_in := to_inches h_px marker_size_mm scale_px border_offset_in in
    let w_in := to_inches w_px marker_size_mm scale_px border_offset_in in
    scale_of [A; B] = Ok scale_px /\
    IZR (2 * marker_size_mm) / scale_px = 2 * (IZR marker_size_mm / scale_px) /\
    calculate_two_markers [A; B] (Some [i; j]) marker_size_mm border_offset_in
      = Ok (round_up_half h_in, round_up_half w_in) /\
    calculate_two_markers [A; B] (Some [i; j]) (2 * marker_size_mm) border_offset_in
      = Ok (round_up_half (2 * h_in - 2 * border_offset_in),
            round_up_half (2 * w_in - 2 * border_offset_in)).
Proof.
  intros Hscale.
  destruct (pixel_extents_ok A B) as [h_px [w_px [Hpx _]]].
  exists h_px, w_px. split; [exact Hpx|]. cbv zeta.
  split; [apply scale_of_pair|]. split; [|split].
  - rewrite mult_IZR. unfold Rdiv. ring.
  - now apply calculate_two_markers_run.
  - rewrite <- !to_inches_double. now apply calculate_two_markers_run.
Qed.

Lemma doubling_marker_size_doubles_witness :
  exists h_px w_px : Z,
    pixel_extents [marker_tl; marker_br] = Ok (h_px, w_px) /\
    let scale_px := (get_scale marker_tl + get_scale marker_br) / 2 in
    let h_in := to_inches h_px 20 scale_px 0 in
    let w_in := to_inches w_px 20 scale_px 0 in
    scale_of [marker_tl; marker_br] = Ok scale_px /\
    IZR (2 * 20) / scale_px = 2 * (IZR 20 / scale_px) /\
    calculate_two_markers [marker_tl; marker_br] (Some [0; 1]%Z) 20 0
      = Ok (round_up_half h_in, round_up_half w_in) /\
    calculate_two_markers [marker_tl; marker_br] (Some [0; 1]%Z) (2 * 20) 0
      = Ok (round_up_half (2 * h_in - 2 * 0), round_up_half (2 * w_in - 2 * 0)).
Proof.
  apply (doubling_marker_size_doubles marker_tl marker_br 0 1 20 0).
  rewrite scenario_scale. lra.
Defined.

(** ** Degenerate markers *)

Section Degenerate.

Lemma marker_dot_all_identical : all_identical marker_dot.
Proof. repeat split. Qed.

Lemma calculate_two_markers_zero_scale (A B : marker) (i j size : Z) (border : R) :
  (get_scale A + get_scale B) / 2 = 0 ->
  calculate_two_markers [A; B] (Some [i; j]) size border = Err NonFinite.
Proof.
  intros Hz. unfold calculate_two_markers.
  rewrite check_ids_two, scale_of_pair.
  destruct (pixel_extents_ok A B) as [h_px [w_px [-> _]]]. simpl.
  destruct (Req_dec_T ((get_scale A + get_scale B) / 2) 0) as [_|Hnz];
    [reflexivity|contradiction].
Qed.

End Degenerate.

(** C7, the claim as stated fails: with one marker collapsed to a
    single point and one regular marker the pipeline returns a numeric
    (height, width) pair and raises nothing. *)
Lemma degenerate_marker_not_rejected :
  all_identical marker_dot /\
  exists h w : R,
    calculate_two_markers [marker_dot; marker_br] (Some [0; 1]%Z) 20 0 = Ok (h, w).
Proof.
  split; [exact marker_dot_all_identical|].
  destruct (pixel_extents_ok marker_dot marker_br) as [h_px [w_px [Hpx _]]].
  eexists _, _. apply (calculate_two_markers_run _ _ _ _ _ _ _ _ Hpx).
  rewrite (get_scale_all_identical _ marker_dot_all_identical), get_scale_marker_br.
  lra.
Qed.

(** C7, amended: a marker whose four corners coincide has scale 0.
    The pipeline has no check of its own for it.  When both markers
    are such, the averaged scale is zero and no numeric result is
    returned: the rounding step raises on the non-finite value.  When
    the other marker has corners that do not all coincide, the averaged
    scale is half that marker's scale and a numeric (height, width)
    pair is returned. *)
Theorem degenerate_marker_behaviour
    (A B : marker) (i j : Z) (marker_size_mm : Z) (border_offset_in : R) :
  all_identical A ->
  get_scale A = 0 /\
  (all_identical B ->
     calculate_two_markers [A; B] (Some [i; j]) marker_size_mm border_offset_in
       = Err NonFinite /\
     calculate_two_markers [B; A] (Some [i; j]) marker_size_mm border_offset_in
       = Err NonFinite) /\
  (non_degenerate B ->
     scale_of [A; B] = Ok (get_scale B / 2) /\
     scale_of [B; A] = Ok (get_scale B / 2) /\
     (exists h w : R,
        calculate_two_markers [A; B] (Some [i; j]) marker_size_mm border_offset_in
          = Ok (h, w)) /\
     (exists h w : R,
        calculate_two_markers [B; A] (Some [i; j]) marker_size_mm border_offset_in
          = Ok (h, w))).
Proof.
  intros HA. pose proof (get_scale_all_identical A HA) as ZA.
  split; [exact ZA|]. split.
  - intros HB. pose proof (get_scale_all_identical B HB) as ZB.
    split; apply calculate_two_markers_zero_scale; rewrite ZA, ZB; lra.
  - intros HB. pose proof (get_scale_pos B HB) as PB.
    split; [rewrite scale_of_pair, ZA; f_equal; lra|].
    split; [rewrite scale_of_pair, ZA; f_equal; lra|].
    split.
    + destruct (pixel_extents_ok A B) as [h_px [w_px [Hpx _]]].
      eexists _, _. apply (calculate_two_markers_run _ _ _ _ _ _ _ _ Hpx).
      rewrite ZA. lra.
    + destruct (pixel_extents_ok B A) as [h_px [w_px [Hpx _]]].
      eexists _, _. apply (calculate_two_markers_run _ _ _ _ _ _ _ _ Hpx).
      rewrite ZA. lra.
Qed.

Lemma degenerate_marker_behaviour_witness :
  calculate_two_markers [marker_dot; marker_dot] (Some [0; 1]%Z) 20 0 = Err NonFinite /\
  exists h w : R,
    calculate_two_markers [marker_dot; marker_br] (Some [0; 1]%Z) 20 0 = Ok (h, w).
Proof.
  destruct (degenerate_marker_behaviour marker_dot marker_dot 0 1 20 0
              marker_dot_all_identical) as [_ [Hboth _]].
  destruct (degenerate_marker_behaviour marker_dot marker_br 0 1 20 0
              marker_dot_all_identical) as [_ [_ Hone]].
  split.
  - exact (proj1 (Hboth marker_dot_all_identical)).
  - exact (proj1 (proj2 (proj2 (Hone marker_br_non_degenerate)))).
Defined.

(** ** Ties at the extreme y-values *)

Section Ties.

Local Open Scope Z_scope.

Lemma count_occ_after_remove (l r : list Z) (v x : Z) :
  Permutation l (v :: r) ->
  (count_occ Z.eq_dec l x <= S (count_occ Z.eq_dec r x))%nat.
Proof.
  intros HP. rewrite Permutation_count_occ in HP. rewrite (HP x). simpl.
  destruct (Z.eq_dec v x); lia.
Qed.

Lemma count_occ_after_remove_other (l r : list Z) (v x : Z) :
  Permutation l (v :: r) -> v <> x ->
  count_occ Z.eq_dec l x = count_occ Z.eq_dec r x.
Proof.
  intros HP Hne. rewrite Permutation_count_occ in HP. rewrite (HP x). simpl.
  destruct (Z.eq_dec v x); [contradiction|reflexivity].
Qed.

Lemma in_of_count (l : list Z) (x : Z) :
  (1 <= count_occ Z.eq_dec l x)%nat -> In x l.
Proof. intros H. apply (count_occ_In Z.eq_dec). lia. Qed.

Lemma is_min_sublist (l r : list Z) (m : Z) :
  (forall y, In y r -> In y l) -> is_min m l -> In m r -> is_min m r.
Proof. intros Hsub [_ Hle] Hin. split; auto. Qed.

Lemma is_max_sublist (l r : list Z) (m : Z) :
  (forall y, In y r -> In y l) -> is_max m l -> In m r -> is_max m r.
Proof. intros Hsub [_ Hle] Hin. split; auto. Qed.

Lemma perm_cons_incl (l r : list Z) (v : Z) :
  Permutation l (v :: r) -> forall y, In y r -> In y l.
Proof.
  intros HP y Hy. eapply Permutation_in; [apply Permutation_sym, HP|]. now right.
Qed.

(** A repeated least value is found twice. *)
Lemma extremes_min_tie (ys : list Z) (y1 y2 y3 y4 : Z) (tmp tmp' : list Z) (m : Z) :
  extremes ys y1 y2 y3 y4 tmp tmp' ->
  is_min m ys -> (2 <= count_occ Z.eq_dec ys m)%nat ->
  y1 = m /\ y2 = m.
Proof.
  intros [M1 P1 M2 _ _ _] Hm Hcount.
  assert (E1 : y1 = m) by (eapply is_min_unique; eauto). subst y1.
  split; [reflexivity|].
  pose proof (count_occ_after_remove _ _ _ m P1) as Hc.
  apply (is_min_unique tmp); [exact M2|].
  apply (is_min_sublist ys); [now apply (perm_cons_incl ys tmp m)|exact Hm|].
  apply in_of_count. lia.
Qed.

(** A repeated greatest value is found twice, once three values or
    more are at hand. *)
Lemma extremes_max_tie (ys : list Z) (y1 y2 y3 y4 : Z) (tmp tmp' : list Z) (M : Z) :
  extremes ys y1 y2 y3 y4 tmp tmp' ->
  (3 <= List.length ys)%nat ->
  is_max M ys -> (2 <= count_occ Z.eq_dec ys M)%nat ->
  y3 = M /\ y4 = M.
Proof.
  intros [M1 P1 _ M3 P3 M4] Hlen HM Hcount.
  pose proof (perm_cons_incl _ _ _ P1) as S1.
  pose proof (perm_cons_incl _ _ _ P3) as S3.
  pose proof (count_occ_after_remove _ _ _ M P1) as Hc1.
  assert (HMtmp : is_max M tmp).
  { apply (is_max_sublist ys); auto. apply in_of_count. lia. }
  assert (E3 : y3 = M) by (eapply is_max_unique; eauto). subst y3.
  split; [reflexivity|].
  apply (is_max_unique tmp'); [exact M4|].
  apply (is_max_sublist tmp); auto.
  destruct (Z.eq_dec y1 M) as [Heq|Hne].
  - (* the least value is the greatest: all values are equal *)
    pose proof (Permutation_length P1) as L1. pose proof (Permutation_length P3) as L3.
    simpl in L1, L3.
    destruct tmp' as [|z t]; [simpl in L3; lia|].
    assert (Hz : In z ys) by (apply S1, S3; now left).
    destruct M1 as [_ Hlo]. destruct HM as [_ Hhi].
    specialize (Hlo z Hz). specialize (Hhi z Hz).
    left. lia.
  - pose proof (count_occ_after_remove_other _ _ _ M P1 Hne) as Hc.
    pose proof (count_occ_after_remove _ _ _ M P3) as Hc3.
    apply in_of_count. lia.
Qed.

Lemma select_top_same (d : string) (p p3 p4 : coord) :
  d = "TLBR"%string \/ d = "TRBL"%string ->
  exists bx by_, select d p p p3 p4 = Ok (fst p, snd p, bx, by_).
Proof.
  intros [->| ->]; unfold select; simpl.
  - rewrite Z.ltb_irrefl. eauto.
  - rewrite Z.gtb_ltb, Z.ltb_irrefl. eauto.
Qed.

Lemma select_bottom_same (d : string) (p1 p2 p : coord) :
  d = "TLBR"%string \/ d = "TRBL"%string ->
  exists tx ty, select d p1 p2 p p = Ok (tx, ty, fst p, snd p).
Proof.
  intros [->| ->]; unfold select; simpl.
  - rewrite Z.gtb_ltb, Z.ltb_irrefl. eauto.
  - rewrite Z.ltb_irrefl. eauto.
Qed.

End Ties.

(** C10: on eight points and either layout, when the smallest y-value
    occurs at more than one point both top indices are the first
    position that holds it, and the returned top extreme is the point
    at that position, whatever the x-coordinates; when the largest
    y-value occurs at more than one point both bottom indices are the
    first position that holds it and the returned bottom extreme is
    the point at that position. *)
Theorem tie_returns_first_point (coords : list coord) (diagonal : string) :
  List.length coords = 8%nat ->
  diagonal = "TLBR"%string \/ diagonal = "TRBL"%string ->
  (forall m : Z,
     is_min m (map snd coords) ->
     (2 <= count_occ Z.eq_dec (map snd coords) m)%nat ->
     exists (i : nat) (p : coord),
       first_at m (map snd coords) i /\ nth_error coords i = Some p /\
       (exists i3 i4, extreme_indices coords = Ok (i, i, i3, i4)) /\
       (exists bx by_,
          get_diff_two_markers_px coords diagonal = Ok (fst p, snd p, bx, by_))) /\
  (forall M : Z,
     is_max M (map snd coords) ->
     (2 <= count_occ Z.eq_dec (map snd coords) M)%nat ->
     exists (i : nat) (p : coord),
       first_at M (map snd coords) i /\ nth_error coords i = Some p /\
       (exists i1 i2, extreme_indices coords = Ok (i1, i2, i, i)) /\
       (exists tx ty,
          get_diff_two_markers_px coords diagonal = Ok (tx, ty, fst p, snd p))).
Proof.
  intros Hlen Hd.
  assert (Hlen3 : (3 <= List.length (map snd coords))%nat) by (rewrite length_map; unfold coord in *; lia).
  destruct (extreme_ys_ok _ Hlen3) as [y1 [y2 [y3 [y4 Hys]]]].
  destruct (extreme_ys_inv _ _ _ _ _ Hys) as [tmp [tmp' Hex]].
  destruct (extreme_indices_closed _ _ _ _ _ Hys)
    as [i1 [i2 [i3 [i4 [Hidx [I1 [I2 [I3 I4]]]]]]]].
  destruct (get_diff_closed _ diagonal _ _ _ _ Hys)
    as [p1 [p2 [p3 [p4 [P1 [P2 [P3 [P4 Hsel]]]]]]]].
  split.
  - intros m Hm Hcount.
    destruct (extremes_min_tie _ _ _ _ _ _ _ _ Hex Hm Hcount) as [-> ->].
    assert (i2 = i1) by congruence. subst i2.
    assert (p2 = p1) by congruence. subst p2.
    destruct (py_index_point _ _ _ I1) as [p [Hget Hp]].
    assert (p = p1) by congruence. subst p.
    exists i1, p1. split; [now apply py_index_first|]. split.
    + unfold py_get in Hget. destruct (nth_error coords i1); congruence.
    + split; [eauto|]. rewrite Hsel. now apply select_top_same.
  - intros M HM Hcount.
    destruct (extremes_max_tie _ _ _ _ _ _ _ _ Hex Hlen3 HM Hcount) as [-> ->].
    assert (i4 = i3) by congruence. subst i4.
    assert (p4 = p3) by congruence. subst p4.
    destruct (py_index_point _ _ _ I3) as [p [Hget Hp]].
    assert (p = p3) by congruence. subst p.
    exists i3, p3. split; [now apply py_index_first|]. split.
    + unfold py_get in Hget. destruct (nth_error coords i3); congruence.
    + split; [eauto|]. rewrite Hsel. now apply select_bottom_same.
Qed.

Lemma tie_returns_first_point_witness :
  (exists (i : nat) (p : coord),
     first_at 0 (map snd turned_points) i /\ nth_error turned_points i = Some p /\
     (exists i3 i4, extreme_indices turned_points = Ok (i, i, i3, i4)) /\
     (exists bx by_,
        get_diff_two_markers_px turned_points "TLBR" = Ok (fst p, snd p, bx, by_))) /\
  (exists (i : nat) (p : coord),
     first_at 300 (map snd turned_points) i /\ nth_error turned_points i = Some p /\
     (exists i1 i2, extreme_indices turned_points = Ok (i1, i2, i, i)) /\
     (exists tx ty,
        get_diff_two_markers_px turned_points "TLBR" = Ok (tx, ty, fst p, snd p))).
Proof.
  destruct (tie_returns_first_point turned_points "TLBR" eq_refl (or_introl eq_refl))
    as [Hmin Hmax].
  split.
  - apply Hmin.
    + split; simpl; [tauto|]. intros y Hy. repeat (destruct Hy as [<-|Hy]; [lia|]).
      destruct Hy.
    + vm_compute. lia.
  - apply Hmax.
    + split; simpl; [tauto|]. intros y Hy. repeat (destruct Hy as [<-|Hy]; [lia|]).
      destruct Hy.
    + vm_compute. lia.
Defined.

(** ** The selector against the specification's wording *)

Section SelectorRefinement.

Local Open Scope Z_scope.

Lemma point_at_head (p : coord) (l : list coord) : point_at (snd p) (p :: l) = Some p.
Proof. unfold point_at. simpl. now rewrite Z.eqb_refl. Qed.

Lemma point_at_skip (v : Z) (p : coord) (l : list coord) :
  snd p <> v -> point_at v (p :: l) = point_at v l.
Proof.
  intros Hne. unfold point_at. simpl.
  destruct (Z.eqb_spec (snd p) v); [contradiction|reflexivity].
Qed.

(** What one extraction step of the specification yields. *)
Lemma extract_top (l : list coord) : forall p r,
  extract false l = Some (p, r) ->
  is_min (snd p) (map snd l) /\ point_at (snd p) l = Some p /\
  Permutation l (p :: r) /\
  (forall v, v <> snd p -> point_at v r = point_at v l).
Proof.
  induction l as [|a t IH]; intros p r; cbn [extract map]; [discriminate|].
  unfold is_min, is_max. cbn [In].
  destruct (extract false t) as [[q r']|] eqn:E.
  - destruct (IH q r' eq_refl) as [[Hin Hle] [Hat [HP Hother]]]; cbn [In] in *.
    destruct (Z.ltb_spec (snd q) (snd a)) as [Hlt|Hge]; intros [= <- <-].
    + repeat split.
      * now right.
      * intros y [<-|Hy]; [lia|now apply Hle].
      * rewrite point_at_skip by lia. exact Hat.
      * eapply perm_trans; [apply perm_skip, HP|apply perm_swap].
      * intros v Hv. destruct (Z.eq_dec (snd a) v) as [<-|Hne].
        -- now rewrite !point_at_head.
        -- rewrite !point_at_skip by assumption. now apply Hother.
    + repeat split.
      * now left.
      * intros y [<-|Hy]; [lia|]. specialize (Hle y Hy). lia.
      * apply point_at_head.
      * apply Permutation_refl.
      * intros v Hv. now rewrite point_at_skip by congruence.
  - intros [= <- <-]. destruct t as [|b t]; [|simpl in E; destruct (extract false t) as [[? ?]|];
      [destruct (snd _ <? snd b)|]; discriminate].
    repeat split.
    + now left.
    + intros y [<-|[]]. lia.
    + apply point_at_head.
    + apply Permutation_refl.
    + intros v Hv. now rewrite point_at_skip by congruence.
Qed.

Lemma extract_bottom (l : list coord) : forall p r,
  extract true l = Some (p, r) ->
  is_max (snd p) (map snd l) /\ point_at (snd p) l = Some p /\
  Permutation l (p :: r) /\
  (forall v, v <> snd p -> point_at v r = point_at v l).
Proof.
  induction l as [|a t IH]; intros p r; cbn [extract map]; [discriminate|].
  unfold is_min, is_max. cbn [In].
  destruct (extract true t) as [[q r']|] eqn:E.
  - destruct (IH q r' eq_refl) as [[Hin Hle] [Hat [HP Hother]]]; cbn [In] in *.
    rewrite Z.gtb_ltb.
    destruct (Z.ltb_spec (snd a) (snd q)) as [Hlt|Hge]; intros [= <- <-].
    + repeat split.
      * now right.
      * intros y [<-|Hy]; [lia|now apply Hle].
      * rewrite point_at_skip by lia. exact Hat.
      * eapply perm_trans; [apply perm_skip, HP|apply perm_swap].
      * intros v Hv. destruct (Z.eq_dec (snd a) v) as [<-|Hne].
        -- now rewrite !point_at_head.
        -- rewrite !point_at_skip by assumption. now apply Hother.
    + repeat split.
      * now left.
      * intros y [<-|Hy]; [lia|]. specialize (Hle y Hy). lia.
      * apply point_at_head.
      * apply Permutation_refl.
      * intros v Hv. now rewrite point_at_skip by congruence.
  - intros [= <- <-]. destruct t as [|b t]; [|simpl in E; destruct (extract true t) as [[? ?]|];
      [destruct (snd _ >? snd b)|]; discriminate].
    repeat split.
    + now left.
    + intros y [<-|[]]. lia.
    + apply point_at_head.
    + apply Permutation_refl.
    + intros v Hv. now rewrite point_at_skip by congruence.
Qed.

Lemma extract_some (bottom : bool) (l : list coord) :
  l <> [] -> exists p r, extract bottom l = Some (p, r).
Proof.
  destruct l as [|a t]; [congruence|]. intros _. simpl.
  destruct (extract bottom t) as [[q r']|]; [|eauto].
  destruct (if bottom then snd q >? snd a else snd q <? snd a); eauto.
Qed.

Lemma not_in_of_count (l r : list Z) (v : Z) :
  Permutation l (v :: r) -> count_occ Z.eq_dec l v = 1%nat -> ~ In v r.
Proof.
  intros HP Hc Hin. rewrite Permutation_count_occ in HP. rewrite (HP v) in Hc.
  simpl in Hc. destruct (Z.eq_dec v v); [|congruence].
  apply (count_occ_In Z.eq_dec) in Hin. lia.
Qed.

(** Where the smallest and the largest y-value each occur once, the
    selector returns what the specification's wording selects. *)
Lemma selector_agrees_without_extreme_ties (coords : list coord) (diagonal : string)
    (m M : Z) :
  (3 <= List.length coords)%nat ->
  is_min m (map snd coords) -> count_occ Z.eq_dec (map snd coords) m = 1%nat ->
  is_max M (map snd coords) -> count_occ Z.eq_dec (map snd coords) M = 1%nat ->
  forall r, get_diff_two_markers_px coords diagonal = Ok r <->
            spec_selector coords diagonal = Some r.
Proof.
  intros Hlen Hm Hcm HM HcM.
  assert (Hlen3 : (3 <= List.length (map snd coords))%nat) by now rewrite length_map.
  destruct (extreme_ys_ok _ Hlen3) as [y1 [y2 [y3 [y4 Hys]]]].
  destruct (extreme_ys_inv _ _ _ _ _ Hys) as [tmp [tmp' Hex]].
  destruct (get_diff_closed _ diagonal _ _ _ _ Hys)
    as [p1 [p2 [p3 [p4 [P1 [P2 [P3 [P4 Hsel]]]]]]]].
  destruct Hex as [M1 Q1 M2 M3 Q3 M4].
  assert (y1 = m) by (eapply is_min_unique; eauto). subst y1.
  pose proof (Permutation_length Q1) as L1. pose proof (Permutation_length Q3) as L3.
  simpl in L1, L3.
  pose proof (not_in_of_count _ _ _ Q1 Hcm) as Hm_tmp.
  pose proof (perm_cons_incl _ _ _ Q1) as S1.
  pose proof (perm_cons_incl _ _ _ Q3) as S3.
  (* the greatest value is not the least one *)
  assert (HmM : m <> M).
  { intros ->. destruct tmp as [|z t]; [simpl in L1; lia|].
    assert (Hz : In z (map snd coords)) by (apply S1; now left).
    destruct Hm as [_ Hlo], HM as [_ Hhi].
    specialize (Hlo z Hz). specialize (Hhi z Hz).
    apply Hm_tmp. left. lia. }
  assert (y3 = M).
  { apply (is_max_unique tmp); [exact M3|].
    apply (is_max_sublist (map snd coords)); auto.
    destruct HM as [HinM _].
    apply (Permutation_in _ Q1) in HinM. destruct HinM; [congruence|assumption]. }
  subst y3.
  (* the specification's top pair *)
  destruct (extract_some false coords) as [a1 [r1 E1]].
  { destruct coords; simpl in Hlen; [lia|congruence]. }
  destruct (extract_top _ _ _ E1) as [A1 [At1 [PA1 Oth1]]].
  assert (snd a1 = m) by (eapply is_min_unique; eauto).
  assert (a1 = p1) by congruence. subst a1.
  assert (HPr1 : Permutation tmp (map snd r1)).
  { apply (Permutation_cons_inv (a := m)).
    eapply perm_trans; [apply Permutation_sym, Q1|].
    replace m with (snd p1) at 1. exact (Permutation_map snd PA1). }
  destruct (extract_some false r1) as [a2 [r2 E2]].
  { intros ->. apply Permutation_length in HPr1. simpl in HPr1. lia. }
  destruct (extract_top _ _ _ E2) as [A2 [At2 [_ _]]].
  assert (snd a2 = y2).
  { apply (is_min_unique tmp); [|exact M2].
    eapply is_min_perm; [apply Permutation_sym, HPr1|exact A2]. }
  assert (a2 = p2).
  { rewrite Oth1 in At2; [congruence|].
    destruct M2 as [Hin2 _]. intros Heq. apply Hm_tmp.
    replace m with y2 by congruence. exact Hin2. }
  subst a2.
  (* the specification's bottom pair *)
  destruct (extract_some true coords) as [a3 [r3 E3]].
  { destruct coords; simpl in Hlen; [lia|congruence]. }
  destruct (extract_bottom _ _ _ E3) as [A3 [At3 [PA3 Oth3]]].
  assert (snd a3 = M) by (eapply is_max_unique; eauto).
  assert (a3 = p3) by congruence. subst a3.
  assert (HPr3 : Permutation (map snd r3) (m :: tmp')).
  { apply (Permutation_cons_inv (a := M)).
    eapply perm_trans.
    - replace M with (snd p3) at 1. apply Permutation_sym. exact (Permutation_map snd PA3).
    - eapply perm_trans; [exact Q1|].
      eapply perm_trans; [apply perm_skip, Q3|apply perm_swap]. }
  assert (HM_r3 : ~ In M (map snd r3)).
  { apply (not_in_of_count (map snd coords)); [|exact HcM].
    replace M with (snd p3). exact (Permutation_map snd PA3). }
  destruct (extract_some true r3) as [a4 [r4 E4]].
  { intros ->. apply Permutation_length in HPr3. simpl in HPr3. lia. }
  destruct (extract_bottom _ _ _ E4) as [A4 [At4 [_ _]]].
  assert (snd a4 = y4).
  { apply (is_max_unique (m :: tmp')).
    - eapply is_max_perm; [exact HPr3|exact A4].
    - destruct M4 as [Hin4 Hle4]. split; [now right|].
      intros y [<-|Hy]; [|now apply Hle4].
      destruct Hm as [_ Hlo]. apply Hlo. apply S1, S3. exact Hin4. }
  assert (a4 = p4).
  { rewrite Oth3 in At4; [congruence|].
    intros Heq. apply HM_r3. destruct A4 as [Hin4 _].
    replace M with (snd a4) by congruence. exact Hin4. }
  subst a4.
  intros r. unfold spec_selector, extract_pair.
  rewrite E1, E2, E3, E4, Hsel.
  destruct (select diagonal p1 p2 p3 p4); split; congruence.
Qed.

End SelectorRefinement.

(** ** The top pair under a tie *)

Section TurnedScenario.

Lemma pixel_extents_turned :
  pixel_extents [marker_tl_turned; marker_br_turned] = Ok (360, 300)%Z.
Proof.
  rewrite pixel_extents_pair. unfold marker_tl_turned, marker_br_turned.
  rewrite !anchor_imarker, !clean_imarker. reflexivity.
Qed.

Lemma get_scale_marker_tl_turned : get_scale marker_tl_turned = 40.
Proof.
  rewrite get_scale_sum. unfold marker_tl_turned, imarker, ipoint, vsub. simpl.
  rewrite (norm_eq _ 40), (norm_eq _ 40), (norm_eq _ 40), (norm_eq _ 40);
    simpl; lra.
Qed.

Lemma get_scale_marker_br_turned : get_scale marker_br_turned = 40.
Proof.
  rewrite get_scale_sum. unfold marker_br_turned, imarker, ipoint, vsub. simpl.
  rewrite (norm_eq _ 40), (norm_eq _ 40), (norm_eq _ 40), (norm_eq _ 40);
    simpl; lra.
Qed.

Lemma inches_360 : round_up_half (to_inches 360 20 40 0) = 7.5.
Proof.
  rewrite (round_up_half_eq _ 15); [unfold Q2R; simpl; lra|].
  unfold to_inches, MM_IN_RATIO. lra.
Qed.

End TurnedScenario.

(** C2, evaluated where it fails.  The eight corners of the scenario's
    markers, listed in the order a quarter-turned marker yields, have
    the two smallest y-values at (40, 0) and (0, 0).  Both top indices
    are 0, the selector returns (40, 0) as the top extreme for layout
    TLBR, while the top-pair point with the smaller x is (0, 0), which
    the selection in the specification's words returns.  The pipeline
    then measures 360 pixels instead of 400 and returns a height of 7.5
    instead of 8.0 inches for the same window. *)
Theorem top_pair_collapses_on_tie :
  turned_points = clean marker_tl_turned ++ clean marker_br_turned /\
  extreme_indices turned_points = Ok (0, 0, 5, 5)%nat /\
  get_diff_two_markers_px turned_points "TLBR" = Ok (40, 0, 400, 300)%Z /\
  extract_pair false turned_points = Some ((40, 0), (0, 0))%Z /\
  spec_selector turned_points "TLBR" = Some (0, 0, 400, 300)%Z /\
  calculate_two_markers [marker_tl_turned; marker_br_turned] (Some [0; 1]%Z) 20 0
    = Ok (7.5, 6) /\
  calculate_two_markers [marker_tl; marker_br] (Some [0; 1]%Z) 20 0 = Ok (8, 6).
Proof.
  split; [|split; [|split; [|split; [|split; [|split]]]]].
  - unfold marker_tl_turned, marker_br_turned. rewrite !clean_imarker. reflexivity.
  - reflexivity.
  - reflexivity.
  - reflexivity.
  - reflexivity.
  - rewrite (calculate_two_markers_run _ _ _ _ _ _ _ _ pixel_extents_turned).
    + rewrite get_scale_marker_tl_turned, get_scale_marker_br_turned.
      replace ((40 + 40) / 2) with 40 by lra.
      rewrite inches_360, inches_300. reflexivity.
    + rewrite get_scale_marker_tl_turned, get_scale_marker_br_turned. lra.
  - rewrite scenario_result, inches_400, inches_300. reflexivity.
Qed.

(** ** The order of the two markers *)

Section MarkerOrder.

Local Open Scope Z_scope.

(** The four values depend on the y-values as a multiset only. *)
Lemma extremes_perm (ys ys' : list Z) (y1 y2 y3 y4 z1 z2 z3 z4 : Z)
    (tmp tmp' t t' : list Z) :
  Permutation ys ys' ->
  extremes ys y1 y2 y3 y4 tmp tmp' ->
  extremes ys' z1 z2 z3 z4 t t' ->
  y1 = z1 /\ y2 = z2 /\ y3 = z3 /\ y4 = z4.
Proof.
  intros HP [M1 P1 M2 M3 P3 M4] [N1 Q1 N2 N3 Q3 N4].
  assert (E1 : y1 = z1).
  { apply (is_min_unique ys'); [now apply (is_min_perm ys)|exact N1]. }
  subst z1.
  assert (HPtmp : Permutation tmp t).
  { apply (Permutation_cons_inv (a := y1)).
    eapply perm_trans; [apply Permutation_sym, P1|].
    eapply perm_trans; [exact HP|exact Q1]. }
  assert (E2 : y2 = z2).
  { apply (is_min_unique t); [now apply (is_min_perm tmp)|exact N2]. }
  assert (E3 : y3 = z3).
  { apply (is_max_unique t); [now apply (is_max_perm tmp)|exact N3]. }
  subst z2 z3.
  assert (HPtmp' : Permutation tmp' t').
  { apply (Permutation_cons_inv (a := y3)).
    eapply perm_trans; [apply Permutation_sym, P3|].
    eapply perm_trans; [exact HPtmp|exact Q3]. }
  assert (E4 : y4 = z4).
  { apply (is_max_unique t'); [now apply (is_max_perm tmp')|exact N4]. }
  auto.
Qed.

Lemma point_at_app (v : Z) (a b : list coord) :
  point_at v (a ++ b) =
  match point_at v a with
  | Some p => Some p
  | None => point_at v b
  end.
Proof.
  unfold point_at. induction a as [|q a IH]; simpl; [reflexivity|].
  destruct (snd q =? v); [reflexivity|exact IH].
Qed.

Lemma point_at_absent (v : Z) (a : list coord) :
  ~ In v (map snd a) -> point_at v a = None.
Proof.
  unfold point_at. induction a as [|q a IH]; simpl; [reflexivity|].
  intros Hnot. destruct (Z.eqb_spec (snd q) v) as [Heq|Hne]; [tauto|].
  apply IH. tauto.
Qed.

Lemma point_at_present (v : Z) (a : list coord) (p : coord) :
  point_at v a = Some p -> In v (map snd a).
Proof.
  intros H. destruct (point_at_snd _ _ _ H) as [<- Hin]. now apply in_map.
Qed.

(** When no y-value occurs in both lists, the first point with a given
    y is the same whichever list comes first. *)
Lemma point_at_app_comm (v : Z) (a b : list coord) :
  (forall y, In y (map snd a) -> ~ In y (map snd b)) ->
  point_at v (a ++ b) = point_at v (b ++ a).
Proof.
  intros Hdisj. rewrite !point_at_app.
  destruct (point_at v a) as [p|] eqn:Ea.
  - rewrite (point_at_absent v b); [reflexivity|].
    apply Hdisj. now apply (point_at_present v a p).
  - destruct (point_at v b); reflexivity.
Qed.

Lemma get_diff_app_comm (a b : list coord) (d : string) :
  (3 <= List.length (a ++ b))%nat ->
  (forall y, In y (map snd a) -> ~ In y (map snd b)) ->
  get_diff_two_markers_px (a ++ b) d = get_diff_two_markers_px (b ++ a) d.
Proof.
  intros Hlen Hdisj.
  assert (HP : Permutation (map snd (a ++ b)) (map snd (b ++ a))).
  { apply Permutation_map, Permutation_app_comm. }
  destruct (extreme_ys_ok (map snd (a ++ b))) as [y1 [y2 [y3 [y4 Hys]]]].
  { now rewrite length_map. }
  destruct (extreme_ys_ok (map snd (b ++ a))) as [z1 [z2 [z3 [z4 Hzs]]]].
  { rewrite <- (Permutation_length HP). now rewrite length_map. }
  destruct (extreme_ys_inv _ _ _ _ _ Hys) as [tmp [tmp' Hex]].
  destruct (extreme_ys_inv _ _ _ _ _ Hzs) as [t [t' Hex']].
  destruct (extremes_perm _ _ _ _ _ _ _ _ _ _ _ _ _ _ HP Hex Hex')
    as [E1 [E2 [E3 E4]]].
  subst z1 z2 z3 z4.
  destruct (get_diff_closed _ d _ _ _ _ Hys)
    as [p1 [p2 [p3 [p4 [P1 [P2 [P3 [P4 ->]]]]]]]].
  destruct (get_diff_closed _ d _ _ _ _ Hzs)
    as [q1 [q2 [q3 [q4 [Q1 [Q2 [Q3 [Q4 ->]]]]]]]].
  rewrite (point_at_app_comm y1 a b Hdisj) in P1.
  rewrite (point_at_app_comm y2 a b Hdisj) in P2.
  rewrite (point_at_app_comm y3 a b Hdisj) in P3.
  rewrite (point_at_app_comm y4 a b Hdisj) in P4.
  congruence.
Qed.

Lemma layout_sym (a b : coord) : fst a <> fst b -> layout a b = layout b a.
Proof.
  intros Hx. unfold layout.
  destruct (Z.ltb_spec (fst a) (fst b)); destruct (Z.ltb_spec (fst b) (fst a));
    try lia; reflexivity.
Qed.

End MarkerOrder.

Section MarkerOrderScenario.

Lemma get_scale_marker_level : get_scale marker_level = 60.
Proof.
  rewrite get_scale_sum. unfold marker_level, imarker, ipoint, vsub. simpl.
  rewrite (norm_eq _ 60), (norm_eq _ 60), (norm_eq _ 60), (norm_eq _ 60);
    simpl; lra.
Qed.

Lemma pixel_extents_tl_level :
  pixel_extents [marker_tl; marker_level] = Ok (160, 60)%Z.
Proof.
  rewrite pixel_extents_pair. unfold marker_tl, marker_level.
  rewrite !anchor_imarker, !clean_imarker. reflexivity.
Qed.

Lemma pixel_extents_level_tl :
  pixel_extents [marker_level; marker_tl] = Ok (60, 60)%Z.
Proof.
  rewrite pixel_extents_pair. unfold marker_tl, marker_level.
  rewrite !anchor_imarker, !clean_imarker. reflexivity.
Qed.

Lemma inches_160 : round_up_half (to_inches 160 50 50 0) = 13 / 2.
Proof.
  rewrite (round_up_half_eq _ 13); [lra|].
  unfold to_inches, MM_IN_RATIO. lra.
Qed.

Lemma inches_60 : round_up_half (to_inches 60 50 50 0) = 5 / 2.
Proof.
  rewrite (round_up_half_eq _ 5); [lra|].
  unfold to_inches, MM_IN_RATIO. lra.
Qed.

Lemma get_scale_marker_tilted : get_scale marker_tilted = 50.
Proof.
  rewrite get_scale_sum. unfold marker_tilted, imarker, ipoint, vsub. simpl.
  rewrite (norm_eq _ 50), (norm_eq _ 50), (norm_eq _ 50), (norm_eq _ 50);
    simpl; lra.
Qed.

Lemma get_scale_marker_tilted_below : get_scale marker_tilted_below = 50.
Proof.
  rewrite get_scale_sum. unfold marker_tilted_below, imarker, ipoint, vsub. simpl.
  rewrite (norm_eq _ 50), (norm_eq _ 50), (norm_eq _ 50), (norm_eq _ 50);
    simpl; lra.
Qed.

Lemma pixel_extents_tilted :
  pixel_extents [marker_tilted; marker_tilted_below] = Ok (70, 110)%Z.
Proof.
  rewrite pixel_extents_pair. unfold marker_tilted, marker_tilted_below.
  rewrite !anchor_imarker, !clean_imarker. reflexivity.
Qed.

Lemma pixel_extents_tilted_swapped :
  pixel_extents [marker_tilted_below; marker_tilted] = Ok (10, 170)%Z.
Proof.
  rewrite pixel_extents_pair. unfold marker_tilted, marker_tilted_below.
  rewrite !anchor_imarker, !clean_imarker. reflexivity.
Qed.

Lemma inches_70 : round_up_half (to_inches 70 50 50 0) = 3.
Proof.
  rewrite (round_up_half_eq _ 6); [lra|].
  unfold to_inches, MM_IN_RATIO. lra.
Qed.

Lemma inches_110 : round_up_half (to_inches 110 50 50 0) = 9 / 2.
Proof.
  rewrite (round_up_half_eq _ 9); [lra|].
  unfold to_inches, MM_IN_RATIO. lra.
Qed.

Lemma inches_10 : round_up_half (to_inches 10 50 50 0) = 1 / 2.
Proof.
  rewrite (round_up_half_eq _ 1); [lra|].
  unfold to_inches, MM_IN_RATIO. lra.
Qed.

Lemma inches_170 : round_up_half (to_inches 170 50 50 0) = 7.
Proof.
  rewrite (round_up_half_eq _ 14); [lra|].
  unfold to_inches, MM_IN_RATIO. lra.
Qed.

End MarkerOrderScenario.

(** C8, the claim as stated fails.  Two markers level with each
    other (the same smallest y-value on both) give a height of 6.5
    inches in one order and of 2.5 inches in the other; two tilted
    markers one below the other (equal anchor x, no y-value in common)
    are classified TRBL in one order and TLBR in the other and give
    (3, 4.5) and (0.5, 7). *)
Lemma marker_order_matters :
  (calculate_two_markers [marker_tl; marker_level] (Some [0; 1]%Z) 50 0
     = Ok (13 / 2, 5 / 2) /\
   calculate_two_markers [marker_level; marker_tl] (Some [1; 0]%Z) 50 0
     = Ok (5 / 2, 5 / 2) /\
   calculate_two_markers [marker_tl; marker_level] (Some [0; 1]%Z) 50 0
     <> calculate_two_markers [marker_level; marker_tl] (Some [1; 0]%Z) 50 0) /\
  (calculate_two_markers [marker_tilted; marker_tilted_below] (Some [0; 1]%Z) 50 0
     = Ok (3, 9 / 2) /\
   calculate_two_markers [marker_tilted_below; marker_tilted] (Some [1; 0]%Z) 50 0
     = Ok (1 / 2, 7) /\
   calculate_two_markers [marker_tilted; marker_tilted_below] (Some [0; 1]%Z) 50 0
     <> calculate_two_markers [marker_tilted_below; marker_tilted] (Some [1; 0]%Z) 50 0).
Proof.
  assert (H1 : calculate_two_markers [marker_tl; marker_level] (Some [0; 1]%Z) 50 0
               = Ok (13 / 2, 5 / 2)).
  { rewrite (calculate_two_markers_run _ _ _ _ _ _ _ _ pixel_extents_tl_level).
    - rewrite get_scale_marker_tl, get_scale_marker_level.
      replace ((40 + 60) / 2) with 50 by lra.
      rewrite inches_160, inches_60. reflexivity.
    - rewrite get_scale_marker_tl, get_scale_marker_level. lra. }
  assert (H2 : calculate_two_markers [marker_level; marker_tl] (Some [1; 0]%Z) 50 0
               = Ok (5 / 2, 5 / 2)).
  { rewrite (calculate_two_markers_run _ _ _ _ _ _ _ _ pixel_extents_level_tl).
    - rewrite get_scale_marker_tl, get_scale_marker_level.
      replace ((60 + 40) / 2) with 50 by lra.
      rewrite inches_60. reflexivity.
    - rewrite get_scale_marker_tl, get_scale_marker_level. lra. }
  assert (H3 : calculate_two_markers [marker_tilted; marker_tilted_below]
                 (Some [0; 1]%Z) 50 0 = Ok (3, 9 / 2)).
  { rewrite (calculate_two_markers_run _ _ _ _ _ _ _ _ pixel_extents_tilted).
    - rewrite get_scale_marker_tilted, get_scale_marker_tilted_below.
      replace ((50 + 50) / 2) with 50 by lra.
      rewrite inches_70, inches_110. reflexivity.
    - rewrite get_scale_marker_tilted, get_scale_marker_tilted_below. lra. }
  assert (H4 : calculate_two_markers [marker_tilted_below; marker_tilted]
                 (Some [1; 0]%Z) 50 0 = Ok (1 / 2, 7)).
  { rewrite (calculate_two_markers_run _ _ _ _ _ _ _ _ pixel_extents_tilted_swapped).
    - rewrite get_scale_marker_tilted, get_scale_marker_tilted_below.
      replace ((50 + 50) / 2) with 50 by lra.
      rewrite inches_10, inches_170. reflexivity.
    - rewrite get_scale_marker_tilted, get_scale_marker_tilted_below. lra. }
  split.
  - split; [exact H1|]. split; [exact H2|].
    rewrite H1, H2. intros [= Hh]. lra.
  - split; [exact H3|]. split; [exact H4|].
    rewrite H3, H4. intros [= Hh Hw]. lra.
Qed.

(** C8, amended: when the two anchors differ in their rounded x and no
    rounded y-coordinate occurs on both markers, exchanging the two
    markers (and their identifiers) in the detection result leaves the
    result of [calculate_two_markers] unchanged. *)
Theorem marker_order_independent
    (A B : marker) (i j : Z) (marker_size_mm : Z) (border_offset_in : R) :
  fst (anchor A) <> fst (anchor B) ->
  (forall y, In y (map snd (clean A)) -> ~ In y (map snd (clean B))) ->
  calculate_two_markers [A; B] (Some [i; j]) marker_size_mm border_offset_in
  = calculate_two_markers [B; A] (Some [j; i]) marker_size_mm border_offset_in.
Proof.
  intros Hx Hdisj.
  assert (Hpx : pixel_extents [A; B] = pixel_extents [B; A]).
  { rewrite !pixel_extents_pair, (layout_sym _ _ Hx).
    rewrite (get_diff_app_comm (clean A) (clean B)); [reflexivity| |exact Hdisj].
    rewrite length_app, !clean_length. lia. }
  unfold calculate_two_markers.
  rewrite !check_ids_two, !scale_of_pair, Hpx.
  rewrite (Rplus_comm (get_scale A) (get_scale B)). reflexivity.
Qed.

Lemma marker_order_independent_witness :
  calculate_two_markers [marker_tl; marker_br] (Some [0; 1]%Z) 20 0
  = calculate_two_markers [marker_br; marker_tl] (Some [1; 0]%Z) 20 0.
Proof.
  apply (marker_order_independent marker_tl marker_br 0 1 20 0).
  - unfold marker_tl, marker_br. rewrite !anchor_imarker. simpl. lia.
  - rewrite clean_marker_tl, clean_marker_br. simpl.
    intros y Hy Hy'.
    repeat (destruct Hy as [<-|Hy]; [repeat (destruct Hy' as [Hy'|Hy']; [lia|]); exact Hy'|]).
    exact Hy.
Defined.

(** * Further properties of the code *)

(** ** The corner selector on short lists and unknown layouts *)

Section SelectorEdges.

Local Open Scope Z_scope.

Lemma py_min_err (l : list Z) (e : error) : py_min l = Err e -> e = EmptySequence /\ l = [].
Proof. destruct l; simpl; [intros [= <-]; auto|discriminate]. Qed.

Lemma py_max_err (l : list Z) (e : error) : py_max l = Err e -> e = EmptySequence /\ l = [].
Proof. destruct l; simpl; [intros [= <-]; auto|discriminate]. Qed.

Lemma py_remove_length (v : Z) (l r : list Z) :
  py_remove v l = Ok r -> List.length l = S (List.length r).
Proof. intros H. apply py_remove_inv in H. now apply Permutation_length in H. Qed.

Lemma extreme_ys_short (ys : list Z) :
  (List.length ys < 3)%nat -> extreme_ys ys = Err EmptySequence.
Proof.
  intros Hlen. unfold extreme_ys.
  destruct (py_min ys) as [y1|e] eqn:E1; simpl.
  2:{ now destruct (py_min_err _ _ E1) as [-> _]. }
  destruct (py_min_inv _ _ E1) as [Hin1 _].
  destruct (py_remove_ok _ _ Hin1) as [tmp [E2 _]]. rewrite E2; simpl.
  pose proof (py_remove_length _ _ _ E2) as L1.
  destruct (py_min tmp) as [y2|e] eqn:E3; simpl.
  2:{ now destruct (py_min_err _ _ E3) as [-> _]. }
  destruct (py_max tmp) as [y3|e] eqn:E4; simpl.
  2:{ now destruct (py_max_err _ _ E4) as [-> _]. }
  destruct (py_max_inv _ _ E4) as [Hin3 _].
  destruct (py_remove_ok _ _ Hin3) as [tmp' [E5 _]]. rewrite E5; simpl.
  pose proof (py_remove_length _ _ _ E5) as L3.
  destruct tmp' as [|z t]; [reflexivity|simpl in L3; lia].
Qed.

Lemma extreme_indices_of_ys (coords : list coord) (e : error) :
  extreme_ys (map snd coords) = Err e -> extreme_indices coords = Err e.
Proof.
  unfold extreme_ys, extreme_indices.
  destruct (py_min (map snd coords)) as [y1|e1] eqn:E1; simpl; [|now intros [= ->]].
  destruct (py_min_inv _ _ E1) as [Hin1 _].
  destruct (py_index_ok _ _ Hin1) as [i1 ->]; simpl.
  destruct (py_remove y1 (map snd coords)) as [tmp|e2] eqn:E2; simpl; [|now intros [= ->]].
  pose proof (perm_cons_incl _ _ _ (py_remove_inv _ _ _ E2)) as S1.
  destruct (py_min tmp) as [y2|e3] eqn:E3; simpl; [|now intros [= ->]].
  destruct (py_min_inv _ _ E3) as [Hin2 _].
  destruct (py_index_ok _ _ (S1 _ Hin2)) as [i2 ->]; simpl.
  destruct (py_max tmp) as [y3|e4] eqn:E4; simpl; [|now intros [= ->]].
  destruct (py_max_inv _ _ E4) as [Hin3 _].
  destruct (py_index_ok _ _ (S1 _ Hin3)) as [i3 ->]; simpl.
  destruct (py_remove y3 tmp) as [tmp'|e5] eqn:E5; simpl; [|now intros [= ->]].
  pose proof (perm_cons_incl _ _ _ (py_remove_inv _ _ _ E5)) as S3.
  destruct (py_max tmp') as [y4|e6] eqn:E6; simpl; [|now intros [= ->]].
  discriminate.
Qed.

(** The four values are ordered: [y1 <= y2 <= y4 <= y3]. *)
Lemma extremes_ordered (ys : list Z) (y1 y2 y3 y4 : Z) (tmp tmp' : list Z) :
  extremes ys y1 y2 y3 y4 tmp tmp' -> y1 <= y2 /\ y2 <= y4 /\ y4 <= y3.
Proof.
  intros [[_ L1] P1 [Hin2 L2] [_ L3] P3 [Hin4 _]].
  pose proof (perm_cons_incl _ _ _ P1) as S1.
  pose proof (perm_cons_incl _ _ _ P3) as S3.
  repeat split; auto.
Qed.

End SelectorEdges.

(** X1: on fewer than three points the selector raises the
    empty-sequence [ValueError] of [min]/[max], whatever the layout
    argument is (an unknown layout included). *)
Theorem selector_needs_three_points (coords : list coord) (diagonal : string) :
  (List.length coords < 3)%nat ->
  get_diff_two_markers_px coords diagonal = Err EmptySequence.
Proof.
  intros Hlen. unfold get_diff_two_markers_px.
  rewrite (extreme_indices_of_ys coords EmptySequence); [reflexivity|].
  apply extreme_ys_short. now rewrite length_map.
Qed.

Lemma selector_needs_three_points_witness :
  get_diff_two_markers_px [(0, 0); (40, 0)]%Z "TLBR" = Err EmptySequence.
Proof.
  apply (selector_needs_three_points [(0, 0); (40, 0)]%Z "TLBR"). simpl. lia.
Defined.

(** X2: on three points or more, a layout other than "TLBR" and "TRBL"
    makes the selector raise the cannot-find-diagonal [ValueError]. *)
Theorem selector_rejects_unknown_layout (coords : list coord) (diagonal : string) :
  (3 <= List.length coords)%nat ->
  diagonal <> "TLBR"%string -> diagonal <> "TRBL"%string ->
  get_diff_two_markers_px coords diagonal = Err InvalidDiagonal.
Proof.
  intros Hlen H1 H2.
  destruct (extreme_ys_ok (map snd coords)) as [y1 [y2 [y3 [y4 Hys]]]].
  { now rewrite length_map. }
  destruct (get_diff_closed _ diagonal _ _ _ _ Hys) as [p1 [p2 [p3 [p4 [_ [_ [_ [_ ->]]]]]]]].
  unfold select.
  apply String.eqb_neq in H1. apply String.eqb_neq in H2. now rewrite H1, H2.
Qed.

Lemma selector_rejects_unknown_layout_witness :
  get_diff_two_markers_px turned_points "BLTR" = Err InvalidDiagonal.
Proof.
  apply (selector_rejects_unknown_layout turned_points "BLTR").
  - simpl. lia.
  - discriminate.
  - discriminate.
Defined.

(** X3: on three points or more and a known layout the selector
    returns two points of the input list, and the top extreme is never
    below the bottom extreme: its y is not larger. *)
Theorem selector_returns_input_points (coords : list coord) (diagonal : string) :
  (3 <= List.length coords)%nat ->
  diagonal = "TLBR"%string \/ diagonal = "TRBL"%string ->
  exists tx ty bx by_ : Z,
    get_diff_two_markers_px coords diagonal = Ok (tx, ty, bx, by_) /\
    In (tx, ty) coords /\ In (bx, by_) coords /\ (ty <= by_)%Z.
Proof.
  intros Hlen Hd.
  destruct (extreme_ys_ok (map snd coords)) as [y1 [y2 [y3 [y4 Hys]]]].
  { now rewrite length_map. }
  destruct (extreme_ys_inv _ _ _ _ _ Hys) as [tmp [tmp' Hex]].
  destruct (extremes_ordered _ _ _ _ _ _ _ Hex) as [O12 [O24 O43]].
  destruct (get_diff_closed _ diagonal _ _ _ _ Hys)
    as [p1 [p2 [p3 [p4 [P1 [P2 [P3 [P4 ->]]]]]]]].
  destruct (point_at_snd _ _ _ P1) as [Y1 I1].
  destruct (point_at_snd _ _ _ P2) as [Y2 I2].
  destruct (point_at_snd _ _ _ P3) as [Y3 I3].
  destruct (point_at_snd _ _ _ P4) as [Y4 I4].
  destruct p1 as [x1 q1], p2 as [x2 q2], p3 as [x3 q3], p4 as [x4 q4].
  simpl in Y1, Y2, Y3, Y4. subst q1 q2 q3 q4.
  destruct Hd as [-> | ->]; unfold select; simpl.
  - destruct (x1 <? x2)%Z, (x3 >? x4)%Z; simpl;
      eexists _, _, _, _; (split; [reflexivity|]); repeat split; auto; lia.
  - destruct (x1 >? x2)%Z, (x3 <? x4)%Z; simpl;
      eexists _, _, _, _; (split; [reflexivity|]); repeat split; auto; lia.
Qed.

Lemma selector_returns_input_points_witness :
  exists tx ty bx by_ : Z,
    get_diff_two_markers_px turned_points "TRBL" = Ok (tx, ty, bx, by_) /\
    In (tx, ty) turned_points /\ In (bx, by_) turned_points /\ (ty <= by_)%Z.
Proof.
  apply (selector_returns_input_points turned_points "TRBL").
  - simpl. lia.
  - right. reflexivity.
Defined.

(** ** The scale of one marker *)

Section ScaleGeometry.

Lemma norm_neg (d : point) : norm (- fst d, - snd d) = norm d.
Proof. unfold norm. simpl. f_equal. ring. Qed.

Lemma norm_vsub_sym (p q : point) : norm (vsub p q) = norm (vsub q p).
Proof. unfold norm, vsub. simpl. f_equal. ring. Qed.

Lemma vsub_vadd (p q v : point) : vsub (vadd p v) (vadd q v) = vsub p q.
Proof. unfold vsub, vadd. simpl. f_equal; ring. Qed.

Lemma norm_scale (k : R) (d : point) : norm (k * fst d, k * snd d) = Rabs k * norm d.
Proof.
  unfold norm. simpl.
  replace (k * fst d * (k * fst d) + k * snd d * (k * snd d))
    with (Rsqr k * (fst d * fst d + snd d * snd d)) by (unfold Rsqr; ring).
  rewrite sqrt_mult; [|apply Rle_0_sqr|nra].
  now rewrite sqrt_Rsqr_abs.
Qed.

Lemma norm_of_sides (p u : point) : norm (vsub p (vadd p u)) = norm u.
Proof. unfold norm, vsub, vadd. simpl. f_equal. ring. Qed.

End ScaleGeometry.

(** X4: [get_scale] is never negative, and it is zero exactly when
    the four corners of the marker coincide. *)
Theorem get_scale_zero_iff_collapsed (m : marker) :
  0 <= get_scale m /\ (get_scale m = 0 <-> all_identical m).
Proof.
  split; [apply get_scale_nonneg|].
  split; [apply get_scale_zero|apply get_scale_all_identical].
Qed.

Lemma get_scale_zero_iff_collapsed_witness : get_scale marker_dot = 0.
Proof.
  apply (proj2 (proj2 (get_scale_zero_iff_collapsed marker_dot))).
  exact marker_dot_all_identical.
Defined.

(** X5: [get_scale] does not depend on where the marker lies, on the
    corner the cyclic order starts at, or on the sense in which the
    corners are listed. *)
Theorem get_scale_rigid (m : marker) (v : point) :
  get_scale (translate v m) = get_scale m /\
  get_scale (rotate_corners m) = get_scale m /\
  get_scale (reverse_corners m) = get_scale m.
Proof.
  rewrite !get_scale_sum. unfold translate, rotate_corners, reverse_corners. simpl.
  split; [|split].
  - now rewrite !vsub_vadd.
  - lra.
  - rewrite (norm_vsub_sym (corner0 m) (corner3 m)),
            (norm_vsub_sym (corner3 m) (corner2 m)),
            (norm_vsub_sym (corner2 m) (corner1 m)),
            (norm_vsub_sym (corner1 m) (corner0 m)).
    lra.
Qed.

(** X6: multiplying every pixel coordinate of a marker by [k]
    multiplies its scale by the absolute value of [k]. *)
Theorem get_scale_dilate (k : R) (m : marker) :
  get_scale (dilate k m) = Rabs k * get_scale m.
Proof.
  rewrite !get_scale_sum. unfold dilate. simpl.
  assert (H : forall p q : point,
             norm (vsub (k * fst p, k * snd p) (k * fst q, k * snd q))
             = Rabs k * norm (vsub p q)).
  { intros p q. rewrite <- norm_scale. unfold vsub. simpl. f_equal. f_equal; ring. }
  rewrite !H. lra.
Qed.

(** X7: for a marker that is a parallelogram with side vectors [u] and
    [v], [get_scale] is the mean of the two side lengths; for a square
    of any position, size and rotation (side vector [(a, b)], next side
    [(-b, a)]) it is the side length. *)
Theorem get_scale_parallelogram (p u v : point) :
  get_scale (parallelogram p u v) = (norm u + norm v) / 2 /\
  forall a b : R,
    get_scale (parallelogram p (a, b) (- b, a)) = sqrt (a * a + b * b).
Proof.
  assert (H : forall u v : point,
             get_scale (parallelogram p u v) = (norm u + norm v) / 2).
  { intros u0 v0. rewrite get_scale_sum. unfold parallelogram. simpl.
    rewrite norm_of_sides.
    replace (norm (vsub (vadd p u0) (vadd (vadd p u0) v0))) with (norm v0)
      by (symmetry; apply norm_of_sides).
    replace (norm (vsub (vadd (vadd p u0) v0) (vadd p v0))) with (norm u0)
      by (unfold norm, vsub, vadd; simpl; f_equal; ring).
    replace (norm (vsub (vadd p v0) p)) with (norm v0)
      by (unfold norm, vsub, vadd; simpl; f_equal; ring).
    lra. }
  split; [apply H|].
  intros a b. rewrite H. unfold norm. simpl.
  replace (- b * - b + a * a) with (a * a + b * b) by ring. lra.
Qed.

(** ** Rounding *)

Section RoundingFacts.

Lemma py_ceil_le (x y : R) : x <= y -> (py_ceil x <= py_ceil y)%Z.
Proof.
  intros Hxy. pose proof (py_ceil_spec x). pose proof (py_ceil_spec y).
  assert (IZR (py_ceil x) < IZR (py_ceil y) + 1) by lra.
  rewrite <- plus_IZR in *. apply lt_IZR in H1. lia.
Qed.

Lemma py_ceil_add (x : R) (k : Z) : py_ceil (x + IZR k) = (py_ceil x + k)%Z.
Proof.
  apply py_ceil_unique. rewrite plus_IZR.
  pose proof (py_ceil_spec x). lra.
Qed.

Lemma py_ceil_IZR (k : Z) : py_ceil (IZR k) = k.
Proof. apply py_ceil_unique. lra. Qed.

End RoundingFacts.

(** X8: the final rounding is monotone, leaves every multiple of 0.5
    unchanged (so it is idempotent), and commutes with adding a
    multiple of 0.5. *)
Theorem round_up_half_laws :
  (forall v v' : R, v <= v' -> round_up_half v <= round_up_half v') /\
  (forall k : Z, round_up_half (IZR k / 2) = IZR k / 2) /\
  (forall v : R, round_up_half (round_up_half v) = round_up_half v) /\
  (forall (v : R) (k : Z), round_up_half (v + IZR k / 2) = round_up_half v + IZR k / 2).
Proof.
  assert (Hfix : forall k : Z, round_up_half (IZR k / 2) = IZR k / 2).
  { intros k. unfold round_up_half.
    replace (IZR k / 2 * 2) with (IZR k) by lra. now rewrite py_ceil_IZR. }
  split; [|split; [exact Hfix|split]].
  - intros v v' Hv. unfold round_up_half.
    assert (H : (py_ceil (v * 2) <= py_ceil (v' * 2))%Z) by (apply py_ceil_le; lra).
    apply IZR_le in H. lra.
  - intros v. unfold round_up_half at 2. apply Hfix.
  - intros v k. unfold round_up_half.
    replace ((v + IZR k / 2) * 2) with (v * 2 + IZR k) by lra.
    rewrite py_ceil_add, plus_IZR. lra.
Qed.

Lemma round_up_half_laws_witness : round_up_half 0 <= round_up_half 1.
Proof. apply (proj1 round_up_half_laws 0 1). lra. Defined.


(** ** The result as a function of border offset and marker size *)

Section Dimensions.

Lemma scale_of_nonneg (corners : list marker) (s : R) :
  scale_of corners = Ok s -> 0 <= s.
Proof.
  unfold scale_of, py_get.
  destruct corners as [|m0 [|m1 t]]; simpl; try discriminate.
  intros [= <-]. pose proof (get_scale_nonneg m0). pose proof (get_scale_nonneg m1). lra.
Qed.

Lemma pixel_extents_nonneg (corners : list marker) (h_px w_px : Z) :
  pixel_extents corners = Ok (h_px, w_px) -> (0 <= h_px)%Z /\ (0 <= w_px)%Z.
Proof.
  unfold pixel_extents.
  destruct (py_get (map clean corners) 0) as [c0|]; simpl; [|discriminate].
  destruct (py_get (map clean corners) 1) as [c1|]; simpl; [|discriminate].
  destruct (diagonal_of c0 c1) as [d|]; simpl; [|discriminate].
  destruct (get_diff_two_markers_px (List.concat (map clean corners)) d)
    as [[[[tx ty] bx] by_]|]; simpl; [|discriminate].
  intros [= <- <-]. split; apply Z.abs_nonneg.
Qed.

(** What a successful run computed. *)
Lemma calculate_two_markers_inv (corners : list marker) (ids : option (list Z))
    (size : Z) (border h w : R) :
  calculate_two_markers corners ids size border = Ok (h, w) ->
  exists (s : R) (h_px w_px : Z),
    check_ids ids = Ok tt /\ scale_of corners = Ok s /\
    pixel_extents corners = Ok (h_px, w_px) /\
    0 < s /\ (0 <= h_px)%Z /\ (0 <= w_px)%Z /\
    h = round_up_half (to_inches h_px size s border) /\
    w = round_up_half (to_inches w_px size s border).
Proof.
  unfold calculate_two_markers.
  destruct (check_ids ids) as [[]|] eqn:Eids; simpl; [|discriminate].
  destruct (scale_of corners) as [s|] eqn:Es; simpl; [|discriminate].
  destruct (pixel_extents corners) as [[h_px w_px]|] eqn:Epx; simpl; [|discriminate].
  destruct (Req_dec_T s 0) as [Hz|Hnz]; [intros [=]|].
  intros [= <- <-]. exists s, h_px, w_px.
  destruct (pixel_extents_nonneg _ _ _ Epx) as [Hh Hw].
  pose proof (scale_of_nonneg _ _ Es).
  repeat split; auto. lra.
Qed.

Lemma calculate_two_markers_of (corners : list marker) (ids : option (list Z))
    (size : Z) (border s : R) (h_px w_px : Z) :
  check_ids ids = Ok tt -> scale_of corners = Ok s ->
  pixel_extents corners = Ok (h_px, w_px) -> 0 < s ->
  calculate_two_markers corners ids size border =
  Ok (round_up_half (to_inches h_px size s border),
      round_up_half (to_inches w_px size s border)).
Proof.
  intros Eids Es Epx Hs. unfold calculate_two_markers.
  rewrite Eids, Es, Epx. simpl.
  destruct (Req_dec_T s 0) as [Hz|_]; [lra|reflexivity].
Qed.

Lemma to_inches_border (px size : Z) (s border delta : R) :
  to_inches px size s (border + delta) = to_inches px size s border + delta * 2.
Proof. unfold to_inches. ring. Qed.

Lemma to_inches_mono (px size size' : Z) (s border border' : R) :
  (0 <= px)%Z -> 0 < s -> (size <= size')%Z -> border <= border' ->
  to_inches px size s border <= to_inches px size' s border'.
Proof.
  intros Hpx Hs Hsize Hborder. unfold to_inches.
  apply IZR_le in Hpx. apply IZR_le in Hsize.
  pose proof MM_IN_RATIO_pos as HM.
  assert (Hq : IZR size / s <= IZR size' / s).
  { apply Rmult_le_compat_r; [left; now apply Rinv_0_lt_compat|exact Hsize]. }
  assert (Hp : IZR px * (IZR size / s) <= IZR px * (IZR size' / s))
    by now apply Rmult_le_compat_l.
  assert (Hd : IZR px * (IZR size / s) / MM_IN_RATIO
               <= IZR px * (IZR size' / s) / MM_IN_RATIO).
  { apply Rmult_le_compat_r; [left; now apply Rinv_0_lt_compat|exact Hp]. }
  lra.
Qed.

End Dimensions.



(** X11: the returned dimensions never decrease when the border
    offset or the marker size grows, the detection being the same. *)
Theorem dimensions_monotone
    (corners : list marker) (ids : option (list Z))
    (size size' : Z) (border border' h w h' w' : R) :
  (size <= size')%Z -> border <= border' ->
  calculate_two_markers corners ids size border = Ok (h, w) ->
  calculate_two_markers corners ids size' border' = Ok (h', w') ->
  h <= h' /\ w <= w'.
Proof.
  intros Hsize Hborder Hrun Hrun'.
  destruct (calculate_two_markers_inv _ _ _ _ _ _ Hrun)
    as [s [h_px [w_px [Eids [Es [Epx [Hs [Hh [Hw [-> ->]]]]]]]]]].
  rewrite (calculate_two_markers_of _ _ _ _ _ _ _ Eids Es Epx Hs) in Hrun'.
  injection Hrun' as <- <-.
  destruct round_up_half_laws as [Hmono _].
  split; apply Hmono; now apply to_inches_mono.
Qed.

Lemma dimensions_monotone_witness : 8 <= 16 /\ 6 <= 12.
Proof.
  apply (dimensions_monotone [marker_tl; marker_br] (Some [0; 1]%Z) 20 40 0 0 8 6 16 12).
  - lia.
  - lra.
  - rewrite scenario_result, inches_400, inches_300. reflexivity.
  - rewrite scenario_result, inches_400_double, inches_300_double. reflexivity.
Defined.

(** X12: for a non-negative marker size, each returned dimension is
    at least twice the border offset. *)
Theorem dimensions_cover_border
    (corners : list marker) (ids : option (list Z))
    (marker_size_mm : Z) (border_offset_in h w : R) :
  (0 <= marker_size_mm)%Z ->
  calculate_two_markers corners ids marker_size_mm border_offset_in = Ok (h, w) ->
  2 * border_offset_in <= h /\ 2 * border_offset_in <= w.
Proof.
  intros Hsize Hrun.
  destruct (calculate_two_markers_inv _ _ _ _ _ _ Hrun)
    as [s [h_px [w_px [_ [_ [_ [Hs [Hh [Hw [-> ->]]]]]]]]]].
  assert (H : forall px : Z, (0 <= px)%Z ->
            2 * border_offset_in <= round_up_half (to_inches px marker_size_mm s border_offset_in)).
  { intros px Hpx.
    pose proof (round_up_half_ge (to_inches px marker_size_mm s border_offset_in)) as Hge.
    pose proof (to_inches_nonneg px marker_size_mm s 0 Hpx Hsize Hs (Rle_refl 0)) as H0.
    replace border_offset_in with (0 + border_offset_in) in Hge at 1 by lra.
    rewrite to_inches_border in Hge. lra. }
  split; now apply H.
Qed.

Lemma dimensions_cover_border_witness : 2 * 0 <= 8 /\ 2 * 0 <= 6.
Proof.
  apply (dimensions_cover_border [marker_tl; marker_br] (Some [0; 1]%Z) 20 0 8 6).
  - lia.
  - rewrite scenario_result, inches_400, inches_300. reflexivity.
Defined.

(** ** The possible failures *)

(** X13: on a detection of exactly two markers the only failure of
    [calculate_two_markers] is the non-finite value at the rounding
    step, and it occurs exactly when both markers have their four
    corners coinciding: no index error, no empty-sequence error and no
    cannot-find-diagonal error can arise. *)
Theorem two_markers_only_failure
    (A B : marker) (i j : Z) (marker_size_mm : Z) (border_offset_in : R) :
  (forall e : error,
     calculate_two_markers [A; B] (Some [i; j]) marker_size_mm border_offset_in = Err e ->
     e = NonFinite) /\
  (calculate_two_markers [A; B] (Some [i; j]) marker_size_mm border_offset_in
     = Err NonFinite <-> all_identical A /\ all_identical B).
Proof.
  destruct (pixel_extents_ok A B) as [h_px [w_px [Hpx _]]].
  pose proof (get_scale_nonneg A) as NA. pose proof (get_scale_nonneg B) as NB.
  destruct (Req_dec_T ((get_scale A + get_scale B) / 2) 0) as [Hz|Hnz].
  - rewrite (calculate_two_markers_zero_scale A B i j _ _ Hz). split.
    + now intros e [= <-].
    + split; [intros _|reflexivity].
      split; apply get_scale_zero; lra.
  - rewrite (calculate_two_markers_run A B i j _ _ _ _ Hpx Hnz). split.
    + discriminate.
    + split; [discriminate|]. intros [HA HB]. exfalso. apply Hnz.
      rewrite (get_scale_all_identical A HA), (get_scale_all_identical B HB). lra.
Qed.

Lemma two_markers_only_failure_witness :
  calculate_two_markers [marker_dot; marker_dot] (Some [0; 1]%Z) 20 0 = Err NonFinite.
Proof.
  apply (proj2 (two_markers_only_failure marker_dot marker_dot 0 1 20 0)).
  split; exact marker_dot_all_identical.
Defined.

(** ** The corner selector under changes of coordinates *)

Section SelectorMaps.

Local Open Scope Z_scope.

Variables f g : Z -> Z.

Lemma increasing_le (h : Z -> Z) : increasing h -> forall a b, a <= b -> h a <= h b.
Proof.
  intros Hh a b Hab. destruct (Z.eq_dec a b) as [->|Hne]; [lia|].
  assert (a < b) by lia. specialize (Hh a b H). lia.
Qed.

Lemma increasing_inj (h : Z -> Z) : increasing h -> forall a b, h a = h b -> a = b.
Proof.
  intros Hh a b Heq. destruct (Z.lt_trichotomy a b) as [Hlt|[Heq'|Hgt]]; [|exact Heq'|].
  - specialize (Hh a b Hlt). lia.
  - specialize (Hh b a Hgt). lia.
Qed.

Lemma increasing_ltb (h : Z -> Z) : increasing h -> forall a b, (h a <? h b) = (a <? b).
Proof.
  intros Hh a b. pose proof (increasing_le h Hh) as Hle.
  destruct (Z.ltb_spec a b) as [Hlt|Hge].
  - apply Z.ltb_lt. now apply Hh.
  - apply Z.ltb_ge. now apply Hle.
Qed.

Lemma decreasing_ltb (h : Z -> Z) : decreasing h -> forall a b, (h a <? h b) = (b <? a).
Proof.
  intros Hh a b. destruct (Z.ltb_spec b a) as [Hlt|Hge].
  - apply Z.ltb_lt. now apply Hh.
  - apply Z.ltb_ge. destruct (Z.eq_dec a b) as [->|Hne]; [lia|].
    assert (Hab : a < b) by lia. specialize (Hh a b Hab). lia.
Qed.

Hypothesis g_increasing : increasing g.

Lemma eqb_increasing (a b : Z) : (g a =? g b) = (a =? b).
Proof.
  destruct (Z.eqb_spec a b) as [->|Hne]; [apply Z.eqb_refl|].
  apply Z.eqb_neq. intros Heq. apply Hne. now apply (increasing_inj g g_increasing).
Qed.

Lemma fold_min_map (t : list Z) : forall x,
  fold_left Z.min (map g t) (g x) = g (fold_left Z.min t x).
Proof.
  induction t as [|a t IH]; intros x; simpl; [reflexivity|].
  rewrite <- IH. f_equal.
  pose proof (increasing_le g g_increasing) as Hle.
  destruct (Z.le_ge_cases x a) as [Hxa|Hax].
  - rewrite (Z.min_l x a Hxa). apply Z.min_l. now apply Hle.
  - rewrite (Z.min_r x a Hax). apply Z.min_r. now apply Hle.
Qed.

Lemma fold_max_map (t : list Z) : forall x,
  fold_left Z.max (map g t) (g x) = g (fold_left Z.max t x).
Proof.
  induction t as [|a t IH]; intros x; simpl; [reflexivity|].
  rewrite <- IH. f_equal.
  pose proof (increasing_le g g_increasing) as Hle.
  destruct (Z.le_ge_cases x a) as [Hxa|Hax].
  - rewrite (Z.max_r x a Hxa). apply Z.max_r. now apply Hle.
  - rewrite (Z.max_l x a Hax). apply Z.max_l. now apply Hle.
Qed.

Lemma py_min_map (l : list Z) : py_min (map g l) = rmap g (py_min l).
Proof. destruct l as [|x t]; simpl; [reflexivity|]. now rewrite fold_min_map. Qed.

Lemma py_max_map (l : list Z) : py_max (map g l) = rmap g (py_max l).
Proof. destruct l as [|x t]; simpl; [reflexivity|]. now rewrite fold_max_map. Qed.

Lemma py_index_map (v : Z) (l : list Z) : py_index (g v) (map g l) = py_index v l.
Proof.
  induction l as [|x t IH]; simpl; [reflexivity|].
  rewrite eqb_increasing, IH. reflexivity.
Qed.

Lemma py_remove_map (v : Z) (l : list Z) :
  py_remove (g v) (map g l) = rmap (map g) (py_remove v l).
Proof.
  induction l as [|x t IH]; simpl; [reflexivity|].
  rewrite eqb_increasing, IH.
  destruct (x =? v); [reflexivity|]. now destruct (py_remove v t).
Qed.

Lemma py_get_map {X Y : Type} (h : X -> Y) (l : list X) (i : nat) :
  py_get (map h l) i = rmap h (py_get l i).
Proof. unfold py_get. rewrite nth_error_map. now destruct (nth_error l i). Qed.

Lemma map_snd_map_point (coords : list coord) :
  map snd (map (map_point f g) coords) = map g (map snd coords).
Proof. rewrite !map_map. reflexivity. Qed.

(** The indices do not change when the y-coordinates are mapped by an
    increasing function. *)
Lemma extreme_indices_map (coords : list coord) :
  extreme_indices (map (map_point f g) coords) = extreme_indices coords.
Proof.
  unfold extreme_indices. rewrite map_snd_map_point.
  rewrite py_min_map. destruct (py_min (map snd coords)) as [y1|]; simpl; [|reflexivity].
  rewrite py_index_map.
  destruct (py_index y1 (map snd coords)) as [i1|]; simpl; [|reflexivity].
  rewrite py_remove_map.
  destruct (py_remove y1 (map snd coords)) as [tmp|]; simpl; [|reflexivity].
  rewrite py_min_map. destruct (py_min tmp) as [y2|]; simpl; [|reflexivity].
  rewrite py_index_map.
  destruct (py_index y2 (map snd coords)) as [i2|]; simpl; [|reflexivity].
  rewrite py_max_map. destruct (py_max tmp) as [y3|]; simpl; [|reflexivity].
  rewrite py_index_map.
  destruct (py_index y3 (map snd coords)) as [i3|]; simpl; [|reflexivity].
  rewrite py_remove_map.
  destruct (py_remove y3 tmp) as [tmp'|]; simpl; [|reflexivity].
  rewrite py_max_map. destruct (py_max tmp') as [y4|]; simpl; [|reflexivity].
  rewrite py_index_map.
  destruct (py_index y4 (map snd coords)) as [i4|]; simpl; reflexivity.
Qed.

Lemma get_diff_map_increasing (coords : list coord) (diagonal : string) :
  increasing f ->
  get_diff_two_markers_px (map (map_point f g) coords) diagonal
  = rmap (map_diagonal f g) (get_diff_two_markers_px coords diagonal).
Proof.
  intros Hf. unfold get_diff_two_markers_px. rewrite extreme_indices_map.
  destruct (extreme_indices coords) as [[[[i1 i2] i3] i4]|]; simpl; [|reflexivity].
  rewrite !py_get_map.
  destruct (String.eqb diagonal "TLBR").
  - destruct (py_get coords i1) as [p1|]; simpl; [|reflexivity].
    destruct (py_get coords i2) as [p2|]; simpl; [|reflexivity].
    destruct (py_get coords i3) as [p3|]; simpl; [|reflexivity].
    destruct (py_get coords i4) as [p4|]; simpl; [|reflexivity].
    rewrite Z.gtb_ltb, (Z.gtb_ltb (fst p3)), !(increasing_ltb f Hf).
    destruct (fst p1 <? fst p2), (fst p4 <? fst p3); reflexivity.
  - destruct (String.eqb diagonal "TRBL"); [|reflexivity].
    destruct (py_get coords i1) as [p1|]; simpl; [|reflexivity].
    destruct (py_get coords i2) as [p2|]; simpl; [|reflexivity].
    destruct (py_get coords i3) as [p3|]; simpl; [|reflexivity].
    destruct (py_get coords i4) as [p4|]; simpl; [|reflexivity].
    rewrite Z.gtb_ltb, (Z.gtb_ltb (fst p1)), !(increasing_ltb f Hf).
    destruct (fst p2 <? fst p1), (fst p3 <? fst p4); reflexivity.
Qed.

Lemma get_diff_map_decreasing (coords : list coord) :
  decreasing f ->
  get_diff_two_markers_px (map (map_point f g) coords) "TLBR"
  = rmap (map_diagonal f g) (get_diff_two_markers_px coords "TRBL") /\
  get_diff_two_markers_px (map (map_point f g) coords) "TRBL"
  = rmap (map_diagonal f g) (get_diff_two_markers_px coords "TLBR").
Proof.
  intros Hf. unfold get_diff_two_markers_px. rewrite extreme_indices_map.
  destruct (extreme_indices coords) as [[[[i1 i2] i3] i4]|]; simpl; [|split; reflexivity].
  rewrite !py_get_map.
  destruct (py_get coords i1) as [p1|]; simpl; [|split; reflexivity].
  destruct (py_get coords i2) as [p2|]; simpl; [|split; reflexivity].
  destruct (py_get coords i3) as [p3|]; simpl; [|split; reflexivity].
  destruct (py_get coords i4) as [p4|]; simpl; [|split; reflexivity].
  rewrite !Z.gtb_ltb, !(decreasing_ltb f Hf).
  split.
  - destruct (fst p2 <? fst p1), (fst p3 <? fst p4); reflexivity.
  - destruct (fst p1 <? fst p2), (fst p4 <? fst p3); reflexivity.
Qed.

End SelectorMaps.

(** X14: mapping the x-coordinates by an increasing function and the
    y-coordinates by an increasing function (a shift of the image, an
    integer magnification) maps the selected corners, and the errors,
    along: the selector only compares coordinates. *)
Theorem selector_commutes_with_increasing_maps
    (f g : Z -> Z) (coords : list coord) (diagonal : string) :
  increasing f -> increasing g ->
  get_diff_two_markers_px (map (map_point f g) coords) diagonal
  = rmap (map_diagonal f g) (get_diff_two_markers_px coords diagonal).
Proof. intros Hf Hg. now apply get_diff_map_increasing. Qed.

Lemma selector_commutes_with_increasing_maps_witness :
  get_diff_two_markers_px
    (map (map_point (Z.add 7) (Z.mul 2)) turned_points) "TLBR"
  = rmap (map_diagonal (Z.add 7) (Z.mul 2))
         (get_diff_two_markers_px turned_points "TLBR").
Proof.
  apply (selector_commutes_with_increasing_maps (Z.add 7) (Z.mul 2) turned_points "TLBR").
  - intros a b Hab. lia.
  - intros a b Hab. lia.
Defined.

(** X15: mirroring the image left to right (x mapped by a decreasing
    function) exchanges the two layouts: the selector on the mirrored
    points with layout TLBR returns the mirror image of what it returns
    on the original points with layout TRBL, and conversely. *)
Theorem selector_mirror_exchanges_layouts
    (f g : Z -> Z) (coords : list coord) :
  decreasing f -> increasing g ->
  get_diff_two_markers_px (map (map_point f g) coords) "TLBR"
  = rmap (map_diagonal f g) (get_diff_two_markers_px coords "TRBL") /\
  get_diff_two_markers_px (map (map_point f g) coords) "TRBL"
  = rmap (map_diagonal f g) (get_diff_two_markers_px coords "TLBR").
Proof. intros Hf Hg. now apply get_diff_map_decreasing. Qed.

Lemma selector_mirror_exchanges_layouts_witness :
  get_diff_two_markers_px
    (map (map_point (fun x => 400 - x)%Z (fun y => y)) turned_points) "TLBR"
  = rmap (map_diagonal (fun x => 400 - x)%Z (fun y => y))
         (get_diff_two_markers_px turned_points "TRBL") /\
  get_diff_two_markers_px
    (map (map_point (fun x => 400 - x)%Z (fun y => y)) turned_points) "TRBL"
  = rmap (map_diagonal (fun x => 400 - x)%Z (fun y => y))
         (get_diff_two_markers_px turned_points "TLBR").
Proof.
  apply (selector_mirror_exchanges_layouts
           (fun x => 400 - x)%Z (fun y => y) turned_points).
  - intros a b Hab. lia.
  - intros a b Hab. exact Hab.
Defined.

(** ** The order of the points *)

Section PointOrder.

Local Open Scope Z_scope.

Lemma snd_determines_point (l : list coord) (p q : coord) :
  NoDup (map snd l) -> In p l -> In q l -> snd p = snd q -> p = q.
Proof.
  induction l as [|a t IH]; simpl; intros Hnd Hp Hq Heq; [tauto|].
  inversion Hnd as [|y ys Hnotin Hnd']; subst.
  destruct Hp as [->|Hp], Hq as [->|Hq]; auto.
  - exfalso. apply Hnotin. rewrite Heq. now apply in_map.
  - exfalso. apply Hnotin. rewrite <- Heq. now apply in_map.
Qed.

Lemma point_at_none (v : Z) (l : list coord) (p : coord) :
  point_at v l = None -> In p l -> snd p <> v.
Proof.
  unfold point_at. intros Hnone Hin Heq.
  pose proof (find_none _ _ Hnone p Hin) as Hf. simpl in Hf.
  apply Z.eqb_neq in Hf. contradiction.
Qed.

Lemma point_at_perm (v : Z) (l l' : list coord) :
  NoDup (map snd l) -> Permutation l l' -> point_at v l = point_at v l'.
Proof.
  intros Hnd HP.
  destruct (point_at v l) as [p|] eqn:E; destruct (point_at v l') as [q|] eqn:E';
    try reflexivity.
  - destruct (point_at_snd _ _ _ E) as [Yp Ip].
    destruct (point_at_snd _ _ _ E') as [Yq Iq].
    f_equal. apply (snd_determines_point l); auto; [|congruence].
    eapply Permutation_in; [apply Permutation_sym, HP|exact Iq].
  - destruct (point_at_snd _ _ _ E) as [Yp Ip]. exfalso.
    apply (point_at_none _ _ p E'); [|exact Yp].
    eapply Permutation_in; [exact HP|exact Ip].
  - destruct (point_at_snd _ _ _ E') as [Yq Iq]. exfalso.
    apply (point_at_none _ _ q E); [|exact Yq].
    eapply Permutation_in; [apply Permutation_sym, HP|exact Iq].
Qed.

End PointOrder.

(** X16: when the y-coordinates of the points are pairwise distinct,
    the selector returns the same result, or the same error, for the
    points listed in any order. *)
Theorem selector_order_irrelevant (coords coords' : list coord) (diagonal : string) :
  NoDup (map snd coords) -> Permutation coords coords' ->
  get_diff_two_markers_px coords diagonal = get_diff_two_markers_px coords' diagonal.
Proof.
  intros Hnd HP. pose proof (Permutation_length HP) as Hlen.
  destruct (Nat.lt_ge_cases (List.length coords) 3) as [Hshort|Hlong].
  - rewrite (selector_needs_three_points coords diagonal Hshort).
    rewrite (selector_needs_three_points coords' diagonal); [reflexivity|].
    unfold coord in *. lia.
  - assert (HPy : Permutation (map snd coords) (map snd coords'))
      by now apply Permutation_map.
    destruct (extreme_ys_ok (map snd coords)) as [y1 [y2 [y3 [y4 Hys]]]].
    { now rewrite length_map. }
    destruct (extreme_ys_ok (map snd coords')) as [z1 [z2 [z3 [z4 Hzs]]]].
    { rewrite length_map. unfold coord in *. lia. }
    destruct (extreme_ys_inv _ _ _ _ _ Hys) as [tmp [tmp' Hex]].
    destruct (extreme_ys_inv _ _ _ _ _ Hzs) as [t [t' Hex']].
    destruct (extremes_perm _ _ _ _ _ _ _ _ _ _ _ _ _ _ HPy Hex Hex')
      as [E1 [E2 [E3 E4]]].
    subst z1 z2 z3 z4.
    destruct (get_diff_closed _ diagonal _ _ _ _ Hys)
      as [p1 [p2 [p3 [p4 [P1 [P2 [P3 [P4 ->]]]]]]]].
    destruct (get_diff_closed _ diagonal _ _ _ _ Hzs)
      as [q1 [q2 [q3 [q4 [Q1 [Q2 [Q3 [Q4 ->]]]]]]]].
    rewrite (point_at_perm y1 _ _ Hnd HP) in P1.
    rewrite (point_at_perm y2 _ _ Hnd HP) in P2.
    rewrite (point_at_perm y3 _ _ Hnd HP) in P3.
    rewrite (point_at_perm y4 _ _ Hnd HP) in P4.
    congruence.
Qed.

Lemma selector_order_irrelevant_witness :
  get_diff_two_markers_px [(30, 0); (70, 30); (40, 70); (0, 40)]%Z "TLBR"
  = get_diff_two_markers_px [(70, 30); (30, 0); (40, 70); (0, 40)]%Z "TLBR".
Proof.
  apply (selector_order_irrelevant
           [(30, 0); (70, 30); (40, 70); (0, 40)]%Z
           [(70, 30); (30, 0); (40, 70); (0, 40)]%Z "TLBR").
  - simpl. repeat constructor; simpl; intuition lia.
  - apply perm_swap.
Defined.

(** ** The measurement under shifts and magnifications of the image *)

Section ImageMaps.

Lemma pixel_extents_imarkers (a b c d a' b' c' d' : coord) :
  pixel_extents [imarker a b c d; imarker a' b' c' d'] =
  ('(tx, ty, bx, by_) <-
     get_diff_two_markers_px [a; b; c; d; a'; b'; c'; d'] (layout a a') ;;
   Ok (Z.abs (tx - bx), Z.abs (ty - by_))).
Proof. rewrite pixel_extents_pair, !anchor_imarker, !clean_imarker. reflexivity. Qed.

Lemma layout_map_increasing (f g : Z -> Z) (p q : coord) :
  increasing f -> increasing g ->
  layout (map_point f g p) (map_point f g q) = layout p q.
Proof.
  intros Hf Hg. unfold layout, map_point. simpl.
  rewrite (increasing_ltb f Hf).
  destruct (fst p <? fst q)%Z; simpl; now rewrite (increasing_ltb g Hg).
Qed.

Lemma pixel_extents_imarkers_map (a b c d a' b' c' d' : coord) (f g : Z -> Z) :
  increasing f -> increasing g ->
  pixel_extents [imarker_map f g a b c d; imarker_map f g a' b' c' d'] =
  ('(tx, ty, bx, by_) <-
     get_diff_two_markers_px [a; b; c; d; a'; b'; c'; d'] (layout a a') ;;
   Ok (Z.abs (f tx - f bx), Z.abs (g ty - g by_))).
Proof.
  intros Hf Hg. unfold imarker_map. rewrite pixel_extents_imarkers.
  rewrite (layout_map_increasing f g a a' Hf Hg).
  change [map_point f g a; map_point f g b; map_point f g c; map_point f g d;
          map_point f g a'; map_point f g b'; map_point f g c'; map_point f g d']
    with (map (map_point f g) [a; b; c; d; a'; b'; c'; d']).
  rewrite (get_diff_map_increasing f g Hg _ _ Hf).
  now destruct (get_diff_two_markers_px [a; b; c; d; a'; b'; c'; d'] (layout a a'))
    as [[[[tx ty] bx] by_]|].
Qed.

End ImageMaps.

Section ImageMapsScale.

Lemma imarker_map_shift (dx dy : Z) (a b c d : coord) :
  imarker_map (Z.add dx) (Z.add dy) a b c d
  = translate (IZR dx, IZR dy) (imarker a b c d).
Proof.
  unfold imarker_map, imarker, translate, ipoint, map_point, vadd. simpl.
  rewrite !plus_IZR. f_equal; f_equal; ring.
Qed.



End ImageMapsScale.

(** X17: for markers detected on integer pixel positions, shifting the
    whole image content by an integer number of pixels in x and in y
    leaves the result of [calculate_two_markers] unchanged. *)
Theorem measurement_shift_invariant
    (dx dy : Z) (a b c d a' b' c' d' : coord)
    (ids : option (list Z)) (marker_size_mm : Z) (border_offset_in : R) :
  calculate_two_markers
    [imarker_map (Z.add dx) (Z.add dy) a b c d;
     imarker_map (Z.add dx) (Z.add dy) a' b' c' d']
    ids marker_size_mm border_offset_in
  = calculate_two_markers [imarker a b c d; imarker a' b' c' d']
      ids marker_size_mm border_offset_in.
Proof.
  assert (Hx : increasing (Z.add dx)) by (intros x y Hxy; lia).
  assert (Hy : increasing (Z.add dy)) by (intros x y Hxy; lia).
  unfold calculate_two_markers.
  rewrite !scale_of_pair, !imarker_map_shift.
  rewrite (proj1 (get_scale_rigid (imarker a b c d) (IZR dx, IZR dy))).
  rewrite (proj1 (get_scale_rigid (imarker a' b' c' d') (IZR dx, IZR dy))).
  rewrite <- !imarker_map_shift.
  rewrite (pixel_extents_imarkers_map a b c d a' b' c' d' _ _ Hx Hy).
  rewrite pixel_extents_imarkers.
  destruct (get_diff_two_markers_px [a; b; c; d; a'; b'; c'; d'] (layout a a'))
    as [[[[tx ty] bx] by_]|]; [|reflexivity].
  cbv beta iota delta [bind].
  replace (dx + tx - (dx + bx))%Z with (tx - bx)%Z by lia.
  replace (dy + ty - (dy + by_))%Z with (ty - by_)%Z by lia.
  reflexivity.
Qed.


